(** * inject-pe-section.py: appending a [.bun] section to a PE32+ image

    A shallow embedding of [scripts/inject-pe-section.py] and the
    properties of its specification.

    - A Python [bytes]/[bytearray] is a [list byte].
    - Python integers are unbounded: every number is a [Z]; the 16/32/64-bit
      ranges only appear where [struct] enforces them.
    - Exceptions are the [Err] results of a small error monad; the three
      [assert]s and the [ValueError] get one constructor each, named as the
      specification names them, and [struct.error] gets [StructError]. *)

From Stdlib Require Import ZArith List Lia Bool.
From Stdlib.Strings Require Import Byte.
Import ListNotations.
Open Scope Z_scope.

(** ** Results *)

Inductive error : Type :=
| FormatError              (* assert pe_sig == b'PE\0\0' *)
| UnsupportedFormat        (* assert magic == 0x20B *)
| DuplicateSection         (* raise ValueError("PE already has a .bun section") *)
| SectionLimitExceeded     (* assert num_sections < 96 *)
| InsufficientHeaderSpace  (* assert new_size_of_headers <= first_raw *)
| StructError.             (* struct.error: buffer too small or value out of range *)

Inductive result (A : Type) : Type :=
| Ok (a : A)
| Err (e : error).
Arguments Ok {A} a.
Arguments Err {A} e.

Definition bind {A B : Type} (m : result A) (k : A -> result B) : result B :=
  match m with
  | Ok a => k a
  | Err e => Err e
  end.

Notation "x <- m ;; k" := (bind m (fun x => k))
  (at level 61, m at next level, right associativity).

Definition assert_ (b : bool) (e : error) : result unit :=
  if b then Ok tt else Err e.

(** ** Bytes and byte strings *)

Definition bytes := list byte.

Definition Z_of_byte (b : byte) : Z := Z.of_N (Byte.to_N b).

Definition byte_of_Z (z : Z) : byte :=
  match Byte.of_N (Z.to_N (z mod 256)) with
  | Some b => b
  | None => x00
  end.

Definition len (data : bytes) : Z := Z.of_nat (length data).

(** [b'\0' * n] *)
Definition zeros (n : Z) : bytes := repeat x00 (Z.to_nat n).

(** [data[lo:hi]] for non-negative [lo], [hi] (every index of the script is
    one): the slice is clipped to the buffer and never raises. *)
Definition slice (data : bytes) (lo hi : Z) : bytes :=
  firstn (Z.to_nat (hi - lo)) (skipn (Z.to_nat lo) data).

(** [data[lo:hi] = v] on a bytearray, for non-negative [lo], [hi]: the
    clipped slice is replaced by [v], whatever the length of [v]; an empty or
    reversed slice inserts at [lo]; beyond the end it appends. *)
Definition slice_assign (data : bytes) (lo hi : Z) (v : bytes) : bytes :=
  firstn (Z.to_nat lo) data ++ v ++ skipn (Z.to_nat (Z.max lo hi)) data.

(** Little-endian value of a byte string. *)
Fixpoint le_decode (bs : bytes) : Z :=
  match bs with
  | [] => 0
  | b :: rest => Z_of_byte b + 256 * le_decode rest
  end.

(** The [n] low bytes of [v], least significant first. *)
Fixpoint le_encode (n : nat) (v : Z) : bytes :=
  match n with
  | O => []
  | S k => byte_of_Z v :: le_encode k (v / 256)
  end.

(** [struct.unpack_from(fmt, data, offset)[0]] for an unsigned little-endian
    format of [n] bytes: raises when the buffer has fewer than [n] bytes at
    [offset].  Every offset of the script is a sum of unsigned fields and
    constants, hence non-negative; a negative one (which Python would count
    from the end) is treated as out of range. *)
Definition unpack_from (n : nat) (data : bytes) (offset : Z) : result Z :=
  if (0 <=? offset) && (offset + Z.of_nat n <=? len data)
  then Ok (le_decode (slice data offset (offset + Z.of_nat n)))
  else Err StructError.

(** [struct.pack_into(fmt, data, offset, val)]: raises when [val] is outside
    the format's range or the buffer has fewer than [n] bytes at [offset];
    otherwise overwrites [n] bytes in place. *)
Definition pack_into (n : nat) (data : bytes) (offset val : Z) : result bytes :=
  if (0 <=? val) && (val <? 2 ^ (8 * Z.of_nat n))
     && (0 <=? offset) && (offset + Z.of_nat n <=? len data)
  then Ok (slice_assign data offset (offset + Z.of_nat n) (le_encode n val))
  else Err StructError.

Definition read_u16 := unpack_from 2.
Definition read_u32 := unpack_from 4.
Definition read_u64 := unpack_from 8.
Definition write_u16 := pack_into 2.
Definition write_u32 := pack_into 4.
Definition write_u64 := pack_into 8.

Definition bytes_eqb (a b : bytes) : bool :=
  if list_eq_dec Byte.byte_eq_dec a b then true else false.

(** ** The script *)

(** [(value + alignment - 1) & ~(alignment - 1)] on unbounded integers. *)
Definition align_up (value alignment : Z) : Z :=
  Z.land (value + alignment - 1) (Z.lnot (alignment - 1)).

Definition PE_SIG : bytes := [x50; x45; x00; x00].                       (* b'PE\0\0' *)
Definition BUN_NAME : bytes := [x2e; x62; x75; x6e; x00; x00; x00; x00]. (* b'.bun\0\0\0\0' *)
Definition SECTION_HEADER_SIZE : Z := 40.
Definition IMAGE_SCN_CNT_INITIALIZED_DATA : Z := 0x00000040.
Definition IMAGE_SCN_MEM_READ : Z := 0x40000000.

Record section : Type := mkSection {
  name : bytes;
  virtual_size : Z;
  virtual_addr : Z;
  raw_size : Z;
  raw_ptr : Z;
  chars : Z;
  off : Z
}.

(** The loop [for i in range(num_sections)], from index [i] for [k] more
    rounds: a record is read (five [read_u32], each of which may raise) and
    appended, and only then is its name compared with the reserved one. *)
Fixpoint read_sections (data : bytes) (section_headers_offset i : Z) (k : nat)
  : result (list section) :=
  match k with
  | O => Ok []
  | S k' =>
      let off := section_headers_offset + i * SECTION_HEADER_SIZE in
      let name := slice data off (off + 8) in
      virtual_size <- read_u32 data (off + 8) ;;
      virtual_addr <- read_u32 data (off + 12) ;;
      raw_size <- read_u32 data (off + 16) ;;
      raw_ptr <- read_u32 data (off + 20) ;;
      chars <- read_u32 data (off + 36) ;;
      _ <- assert_ (negb (bytes_eqb name BUN_NAME)) DuplicateSection ;;
      rest <- read_sections data section_headers_offset (i + 1) k' ;;
      Ok (mkSection name virtual_size virtual_addr raw_size raw_ptr chars off :: rest)
  end.

(** [min(xs, default=d)] and [max(xs, default=d)]. *)
Definition min_default (xs : list Z) (d : Z) : Z :=
  match xs with
  | [] => d
  | x :: rest => fold_left Z.min rest x
  end.

Definition max_default (xs : list Z) (d : Z) : Z :=
  match xs with
  | [] => d
  | x :: rest => fold_left Z.max rest x
  end.

(** What lines 24-70 read from the image. *)
Record headers : Type := mkHeaders {
  e_lfanew : Z;
  coff_offset : Z;
  machine : Z;
  num_sections : Z;
  size_of_optional : Z;
  opt_offset : Z;
  file_alignment : Z;
  section_alignment : Z;
  size_of_image : Z;
  size_of_headers : Z;
  checksum_offset : Z;
  security_dd_offset : Z;
  section_headers_offset : Z;
  sections : list section
}.

(** Lines 24-70: the header chain, the section table and its checks. *)
Definition read_headers (data : bytes) : result headers :=
  e_lfanew <- read_u32 data 0x3C ;;
  let pe_sig := slice data e_lfanew (e_lfanew + 4) in
  _ <- assert_ (bytes_eqb pe_sig PE_SIG) FormatError ;;
  let coff_offset := e_lfanew + 4 in
  machine <- read_u16 data coff_offset ;;
  num_sections <- read_u16 data (coff_offset + 2) ;;
  size_of_optional <- read_u16 data (coff_offset + 16) ;;
  let opt_offset := coff_offset + 20 in
  magic <- read_u16 data opt_offset ;;
  _ <- assert_ (magic =? 0x20B) UnsupportedFormat ;;
  file_alignment <- read_u32 data (opt_offset + 36) ;;
  section_alignment <- read_u32 data (opt_offset + 32) ;;
  size_of_image <- read_u32 data (opt_offset + 56) ;;
  size_of_headers <- read_u32 data (opt_offset + 60) ;;
  let checksum_offset := opt_offset + 64 in
  let security_dd_offset := opt_offset + 112 + 4 * 8 in
  let section_headers_offset := opt_offset + size_of_optional in
  sections <- read_sections data section_headers_offset 0 (Z.to_nat num_sections) ;;
  _ <- assert_ (num_sections <? 96) SectionLimitExceeded ;;
  Ok (mkHeaders e_lfanew coff_offset machine num_sections size_of_optional
        opt_offset file_alignment section_alignment size_of_image
        size_of_headers checksum_offset security_dd_offset
        section_headers_offset sections).

(** What lines 72-90 compute. *)
Record layout : Type := mkLayout {
  new_sh_off : Z;
  new_sh_end : Z;
  first_raw : Z;
  new_size_of_headers : Z;
  last_file_end : Z;
  last_va_end : Z;
  payload_len : Z;
  raw_size_new : Z;
  new_va : Z;
  new_raw : Z
}.

Definition first_raw_of (data : bytes) (secs : list section) : Z :=
  min_default (map raw_ptr (filter (fun s => raw_size s >? 0) secs)) (len data).

Definition last_file_end_of (secs : list section) : Z :=
  max_default (map (fun s => raw_ptr s + raw_size s) secs) 0.

Definition last_va_end_of (section_alignment : Z) (secs : list section) : Z :=
  max_default
    (map (fun s => virtual_addr s
                   + align_up (Z.max (virtual_size s) (raw_size s)) section_alignment)
         secs)
    0.

(** Lines 72-90: the header-space check and the placement of the new
    section. *)
Definition plan_layout (data : bytes) (h : headers) (bundle_bytes : bytes)
  : result layout :=
  let new_sh_off := section_headers_offset h + num_sections h * SECTION_HEADER_SIZE in
  let new_sh_end := new_sh_off + SECTION_HEADER_SIZE in
  let first_raw := first_raw_of data (sections h) in
  let new_size_of_headers := align_up new_sh_end (file_alignment h) in
  _ <- assert_ (new_size_of_headers <=? first_raw) InsufficientHeaderSpace ;;
  let last_file_end := last_file_end_of (sections h) in
  let last_va_end := last_va_end_of (section_alignment h) (sections h) in
  let payload_len := len bundle_bytes + 8 in
  let raw_size_new := align_up payload_len (file_alignment h) in
  let new_va := align_up last_va_end (section_alignment h) in
  let new_raw := align_up last_file_end (file_alignment h) in
  Ok (mkLayout new_sh_off new_sh_end first_raw new_size_of_headers
        last_file_end last_va_end payload_len raw_size_new new_va new_raw).

(** Lines 92-98: make room for the new section's raw data. *)
Definition extend_buffer (data : bytes) (new_raw raw_size_new : Z) : bytes :=
  let new_file_size := new_raw + raw_size_new in
  if len data <? new_file_size
  then data ++ zeros (new_file_size - len data)
  else slice_assign data new_raw new_file_size (zeros raw_size_new).

(** Lines 103-109: the 40-byte record of the new section. *)
Definition new_section_header (p : layout) : result bytes :=
  let sh := zeros SECTION_HEADER_SIZE in
  let sh := slice_assign sh 0 8 BUN_NAME in
  sh <- pack_into 4 sh 8 (payload_len p) ;;
  sh <- pack_into 4 sh 12 (new_va p) ;;
  sh <- pack_into 4 sh 16 (raw_size_new p) ;;
  sh <- pack_into 4 sh 20 (new_raw p) ;;
  pack_into 4 sh 36 (Z.lor IMAGE_SCN_CNT_INITIALIZED_DATA IMAGE_SCN_MEM_READ).

(** Lines 92-128: every write to the buffer before the checksum. *)
Definition mutate (data : bytes) (h : headers) (p : layout) (bundle_bytes : bytes)
  : result bytes :=
  let data := extend_buffer data (new_raw p) (raw_size_new p) in
  sh <- new_section_header p ;;
  let data := slice_assign data (new_sh_off p) (new_sh_off p + SECTION_HEADER_SIZE) sh in
  data <- write_u64 data (new_raw p) (len bundle_bytes) ;;
  let data := slice_assign data (new_raw p + 8) (new_raw p + 8 + len bundle_bytes)
                bundle_bytes in
  data <- write_u16 data (coff_offset h + 2) (num_sections h + 1) ;;
  data <- (if size_of_headers h <? new_size_of_headers p
           then write_u32 data (opt_offset h + 60) (new_size_of_headers p)
           else Ok data) ;;
  let new_size_of_image := align_up (new_va p + payload_len p) (section_alignment h) in
  data <- write_u32 data (opt_offset h + 56) new_size_of_image ;;
  Ok (slice_assign data (security_dd_offset h) (security_dd_offset h + 8) (zeros 8)).

(** The loop [for i in range(0, len(data) - 1, 2)]: one round per complete
    pair of bytes, the running sum folded as soon as it leaves 32 bits. *)
Fixpoint sum_words (checksum : Z) (data : bytes) : Z :=
  match data with
  | b0 :: b1 :: rest =>
      let val := le_decode [b0; b1] in
      let checksum := checksum + val in
      let checksum :=
        if checksum >? 0xFFFFFFFF
        then Z.land checksum 0xFFFFFFFF + Z.shiftr checksum 32
        else checksum in
      sum_words checksum rest
  | _ => checksum
  end.

(** Lines 140-155: the value stored by [recompute_checksum], computed on the
    buffer whose checksum field is already zero. *)
Definition checksum_of (data : bytes) : Z :=
  let checksum := sum_words 0 data in
  let checksum :=
    if len data mod 2 =? 0 then checksum
    else checksum + Z_of_byte (last data x00) in
  let checksum := Z.land checksum 0xFFFF + Z.shiftr checksum 16 in
  let checksum := checksum + Z.shiftr checksum 16 in
  let checksum := Z.land checksum 0xFFFF in
  checksum + len data.

Definition recompute_checksum (data : bytes) (checksum_offset : Z) : result bytes :=
  data <- write_u32 data checksum_offset 0 ;;
  write_u32 data checksum_offset (checksum_of data).

Definition add_bun_section (pe_bytes bundle_bytes : bytes) : result bytes :=
  let data := pe_bytes in
  h <- read_headers data ;;
  p <- plan_layout data h bundle_bytes ;;
  data <- mutate data h p bundle_bytes ;;
  recompute_checksum data (checksum_offset h).

(** ** Vocabulary of the specification

    Powers of two, rounding up to a multiple, greatest and least element. *)

Definition power_of_two (a : Z) : Prop := exists k, 0 <= k /\ a = 2 ^ k.

Definition is_pow2 (a : Z) : bool := (0 <? a) && (a =? 2 ^ Z.log2 a).

(** [r] is [v] rounded up to the next multiple of [a]. *)
Definition rounds_up (r v a : Z) : Prop := (a | r) /\ v <= r < v + a.

(** [m] is the greatest element of [xs], or [d] when [xs] is empty. *)
Definition is_max_of (m : Z) (xs : list Z) (d : Z) : Prop :=
  (xs = [] /\ m = d) \/ (In m xs /\ forall x, In x xs -> x <= m).

Definition is_min_of (m : Z) (xs : list Z) (d : Z) : Prop :=
  (xs = [] /\ m = d) \/ (In m xs /\ forall x, In x xs -> m <= x).

(** ** The structured view of an image

    The fields of an image as the byte layout defines them, read without any
    check; [read_headers] returns this view whenever it returns. *)

Definition u16_at (data : bytes) (offset : Z) : Z :=
  le_decode (slice data offset (offset + 2)).

Definition u32_at (data : bytes) (offset : Z) : Z :=
  le_decode (slice data offset (offset + 4)).

Definition section_at (data : bytes) (table : Z) (i : Z) : section :=
  let off := table + i * SECTION_HEADER_SIZE in
  mkSection (slice data off (off + 8)) (u32_at data (off + 8))
    (u32_at data (off + 12)) (u32_at data (off + 16)) (u32_at data (off + 20))
    (u32_at data (off + 36)) off.

Fixpoint section_table (data : bytes) (table i : Z) (k : nat) : list section :=
  match k with
  | O => []
  | S k' => section_at data table i :: section_table data table (i + 1) k'
  end.

Definition headers_of (data : bytes) : headers :=
  let e_lfanew := u32_at data 0x3C in
  let coff_offset := e_lfanew + 4 in
  let num_sections := u16_at data (coff_offset + 2) in
  let size_of_optional := u16_at data (coff_offset + 16) in
  let opt_offset := coff_offset + 20 in
  let section_headers_offset := opt_offset + size_of_optional in
  mkHeaders e_lfanew coff_offset (u16_at data coff_offset) num_sections
    size_of_optional opt_offset (u32_at data (opt_offset + 36))
    (u32_at data (opt_offset + 32)) (u32_at data (opt_offset + 56))
    (u32_at data (opt_offset + 60)) (opt_offset + 64) (opt_offset + 112 + 4 * 8)
    section_headers_offset
    (section_table data section_headers_offset 0 (Z.to_nat num_sections)).

Definition magic_of (data : bytes) : Z := u16_at data (opt_offset (headers_of data)).

Definition pe_sig_of (data : bytes) : bytes :=
  slice data (e_lfanew (headers_of data)) (e_lfanew (headers_of data) + 4).

(** The fixed header chain is readable: the DOS header holds [e_lfanew], the
    signature and the 64-bit magic are in place, and the optional header is
    in the buffer up to its checksum field. *)
Definition chain_ok (data : bytes) : Prop :=
  0x40 <= len data
  /\ pe_sig_of data = PE_SIG
  /\ magic_of data = 0x20B
  /\ opt_offset (headers_of data) + 64 <= len data.

Definition with_sections (h : headers) (secs : list section) : headers :=
  mkHeaders (e_lfanew h) (coff_offset h) (machine h) (num_sections h)
    (size_of_optional h) (opt_offset h) (file_alignment h) (section_alignment h)
    (size_of_image h) (size_of_headers h) (checksum_offset h)
    (security_dd_offset h) (section_headers_offset h) secs.

(** ** The planner's placement *)

(** The placement of lines 72-90, without the header-space assertion. *)
Definition layout_of (data : bytes) (h : headers) (bundle_bytes : bytes) : layout :=
  let new_sh_off := section_headers_offset h + num_sections h * SECTION_HEADER_SIZE in
  let new_sh_end := new_sh_off + SECTION_HEADER_SIZE in
  mkLayout new_sh_off new_sh_end (first_raw_of data (sections h))
    (align_up new_sh_end (file_alignment h))
    (last_file_end_of (sections h))
    (last_va_end_of (section_alignment h) (sections h))
    (len bundle_bytes + 8)
    (align_up (len bundle_bytes + 8) (file_alignment h))
    (align_up (last_va_end_of (section_alignment h) (sections h)) (section_alignment h))
    (align_up (last_file_end_of (sections h)) (file_alignment h)).

(** ** The checksum algorithm of the specification (section 4.4) *)

(** Step 1: zero the checksum field. *)
Definition zero_checksum_field (data : bytes) (checksum_offset : Z) : bytes :=
  slice_assign data checksum_offset (checksum_offset + 4) (zeros 4).

(** Step 2: the sum of the little-endian 16-bit words, the carry beyond 32
    bits folded back in at every word. *)
Fixpoint spec_word_sum (sum : Z) (data : bytes) : Z :=
  match data with
  | b0 :: b1 :: rest =>
      let sum := sum + (Z_of_byte b0 + 256 * Z_of_byte b1) in
      spec_word_sum (Z.land sum 0xFFFFFFFF + Z.shiftr sum 32) rest
  | _ => sum
  end.

(** Step 4, once. *)
Definition fold16 (sum : Z) : Z := Z.land sum 0xFFFF + Z.shiftr sum 16.

(** Steps 2 to 5 on a buffer whose checksum field is zero. *)
Definition spec_checksum (data : bytes) : Z :=
  let sum := spec_word_sum 0 data in
  let sum := if len data mod 2 =? 1 then sum + Z_of_byte (last data x00) else sum in
  let sum := fold16 (fold16 sum) in
  sum + len data.

(** Steps 1 to 5: the value the checksum field must hold. *)
Definition spec_image_checksum (data : bytes) (checksum_offset : Z) : Z :=
  spec_checksum (zero_checksum_field data checksum_offset).

(** ** Well-formed images *)

(** A well-formed 64-bit image: the DOS header is complete and the PE header
    follows it; signature and 64-bit magic are in place; the optional header
    reaches past the security directory entry (entry 4); the section table
    lies in the file; both alignments are powers of two; no section bears the
    reserved name; some section has raw data. *)
Definition well_formedb (pe : bytes) : bool :=
  let h := headers_of pe in
  (0x40 <=? len pe)
  && (0x40 <=? e_lfanew h)
  && bytes_eqb (pe_sig_of pe) PE_SIG
  && (magic_of pe =? 0x20B)
  && (152 <=? size_of_optional h)
  && (section_headers_offset h + 40 * num_sections h <=? len pe)
  && is_pow2 (file_alignment h)
  && is_pow2 (section_alignment h)
  && forallb (fun s => negb (bytes_eqb (name s) BUN_NAME)) (sections h)
  && existsb (fun s => raw_size s >? 0) (sections h).

Definition well_formed (pe : bytes) : Prop := well_formedb pe = true.

(** The header-capacity condition of section 4.2: the table of
    [num_sections + 1] records, aligned, ends at or before the first raw
    data. *)
Definition header_room (pe : bytes) : Prop :=
  let h := headers_of pe in
  align_up (section_headers_offset h + (num_sections h + 1) * 40) (file_alignment h)
  <= first_raw_of pe (sections h).

(** The new section fits the 32-bit fields of the format: its aligned virtual
    end fits [size_of_image], and the checksum of the grown file fits its
    field. *)
Definition fits32 (pe bundle : bytes) : Prop :=
  let h := headers_of pe in
  let p := layout_of pe h bundle in
  align_up (new_va p + payload_len p) (section_alignment h) < 2 ^ 32
  /\ Z.max (len pe) (new_raw p + raw_size_new p) + 0xFFFF < 2 ^ 32.

(** The further invariants of the data model (section 3) that the proofs do
    not need: distinct names, aligned raw pointers and virtual addresses,
    [size_of_headers] covering the table, [size_of_image] covering every
    section, raw data inside the file. *)
Definition spec_invariantsb (pe : bytes) : bool :=
  let h := headers_of pe in
  (if list_eq_dec (list_eq_dec Byte.byte_eq_dec)
        (nodup (list_eq_dec Byte.byte_eq_dec) (map name (sections h)))
        (map name (sections h))
   then true else false)
  && forallb (fun s => (raw_ptr s mod file_alignment h =? 0)
                       && (virtual_addr s mod section_alignment h =? 0)
                       && (virtual_addr s + virtual_size s <=? size_of_image h)
                       && (raw_ptr s + raw_size s <=? len pe))
       (sections h)
  && (section_headers_offset h + 40 * num_sections h <=? size_of_headers h)
  && (num_sections h <? 96).

(** The bytes a run writes, on a well-formed image: outside them the output
    is the extended input. *)
Definition untouched (h : headers) (p : layout) (b : bytes) (a c : Z) : Prop :=
  0 <= a
  /\ (c <= coff_offset h + 2 \/ coff_offset h + 4 <= a)
  /\ (c <= opt_offset h + 56 \/ opt_offset h + 68 <= a)
  /\ (c <= security_dd_offset h \/ security_dd_offset h + 8 <= a)
  /\ (c <= new_sh_off p \/ new_sh_off p + 40 <= a)
  /\ (c <= new_raw p \/ new_raw p + 8 + len b <= a).

(** ** Runs *)

(** The buffers of a successful run of [mutate], one per write. *)
Inductive mutation (data : bytes) (h : headers) (p : layout) (b : bytes) (d : bytes)
  : Prop :=
| mkMutation (sh d1 d2 d3 d4 : bytes)
    (m_header : new_section_header p = Ok sh)
    (m_prefix :
       write_u64
         (slice_assign (extend_buffer data (new_raw p) (raw_size_new p))
            (new_sh_off p) (new_sh_off p + SECTION_HEADER_SIZE) sh)
         (new_raw p) (len b) = Ok d1)
    (m_count :
       write_u16 (slice_assign d1 (new_raw p + 8) (new_raw p + 8 + len b) b)
         (coff_offset h + 2) (num_sections h + 1) = Ok d2)
    (m_headers :
       (if size_of_headers h <? new_size_of_headers p
        then write_u32 d2 (opt_offset h + 60) (new_size_of_headers p)
        else Ok d2) = Ok d3)
    (m_image :
       write_u32 d3 (opt_offset h + 56)
         (align_up (new_va p + payload_len p) (section_alignment h)) = Ok d4)
    (m_security :
       d = slice_assign d4 (security_dd_offset h) (security_dd_offset h + 8) (zeros 8)).

Definition out_of (r : result bytes) : bytes :=
  match r with
  | Ok out => out
  | Err _ => []
  end.

(** ** Synthetic images

    Minimal in-memory PE32+ images, for the concrete instances below. *)

Definition put (offset : Z) (bs : bytes) (data : bytes) : bytes :=
  slice_assign data offset (offset + len bs) bs.

Definition put_u (n : nat) (offset val : Z) (data : bytes) : bytes :=
  put offset (le_encode n val) data.

(** (name, virtual size, virtual address, raw size, raw pointer) *)
Definition section_spec : Type := (bytes * Z * Z * Z * Z)%type.

Fixpoint put_sections (offset : Z) (secs : list section_spec) (data : bytes) : bytes :=
  match secs with
  | [] => data
  | (nm, vs, va, rs, rp) :: rest =>
      put_sections (offset + 40) rest
        (put_u 4 (offset + 36) 0x40000040
           (put_u 4 (offset + 20) rp
              (put_u 4 (offset + 16) rs
                 (put_u 4 (offset + 12) va
                    (put_u 4 (offset + 8) vs
                       (put offset nm data))))))
  end.

(** An image of [total] bytes whose PE header is at [lfanew], with a 240-byte
    optional header, the given alignments and size fields, a non-zero
    security directory entry and the given section table. *)
Definition build_image (total lfanew fa sa img hdrs : Z) (secs : list section_spec)
  : bytes :=
  let coff := lfanew + 4 in
  let opt := coff + 20 in
  put_sections (opt + 240) secs
    (put_u 4 (opt + 148) 0x1234
       (put_u 4 (opt + 144) 0x5000
          (put_u 4 (opt + 64) 0xDEADBEEF
             (put_u 4 (opt + 60) hdrs
                (put_u 4 (opt + 56) img
                   (put_u 4 (opt + 36) fa
                      (put_u 4 (opt + 32) sa
                         (put_u 2 opt 0x20B
                            (put_u 2 (coff + 16) 240
                               (put_u 2 (coff + 2) (Z.of_nat (length secs))
                                  (put_u 2 coff 0x8664
                                     (put lfanew PE_SIG
                                        (put_u 4 0x3C lfanew
                                           (put 0 [x4d; x5a] (zeros total))))))))))))))).

(** A section name [.sNN] numbered by [i]. *)
Definition numbered_name (i : Z) : bytes :=
  [x2e; x73; byte_of_Z (48 + i / 10); byte_of_Z (48 + i mod 10); x00; x00; x00; x00].

(** [k] sections without raw data, numbered from [i], one page each from
    virtual address [va]. *)
Fixpoint bss_sections (i va : Z) (k : nat) : list section_spec :=
  match k with
  | O => []
  | S k' => (numbered_name i, 0x1000, va, 0, 0) :: bss_sections (i + 1) (va + 0x1000) k'
  end.

Definition payload3 : bytes := [x01; x02; x03].

(** One section of 512 raw bytes at offset 512; headers with room to spare. *)
Definition img1 : bytes :=
  build_image 1024 0x80 512 4096 0x2000 512
    [(numbered_name 0, 0x100, 0x1000, 512, 512)].

(** Three sections whose table ends exactly where the first raw data
    starts, at offset 512. *)
Definition img_full_table : bytes :=
  build_image 2048 0x80 512 4096 0x4000 512
    [(numbered_name 0, 0x100, 0x1000, 512, 512);
     (numbered_name 1, 0x100, 0x2000, 512, 1024);
     (numbered_name 2, 0x100, 0x3000, 512, 1536)].

(** As [img1], with a [size_of_image] larger than its one section needs. *)
Definition img_slack : bytes :=
  build_image 1024 0x80 512 4096 0x10000 512
    [(numbered_name 0, 0x100, 0x1000, 512, 512)].

(** 95 sections: one with raw data at 4608, 94 without. *)
Definition img95 : bytes :=
  build_image 5120 0x80 512 4096 0x61000 4608
    ((numbered_name 0, 0x1000, 0x2000, 512, 4608) :: bss_sections 1 0x3000 94).

(** 95 sections whose table, at offset 808, ends exactly where the first raw
    data starts, at offset 4608. *)
Definition img95_full : bytes :=
  build_image 5120 0x220 512 4096 0x61000 4608
    ((numbered_name 0, 0x1000, 0x2000, 512, 4608) :: bss_sections 1 0x3000 94).

(** 96 sections. *)
Definition img96 : bytes :=
  build_image 5120 0x80 512 4096 0x62000 4608
    ((numbered_name 0, 0x1000, 0x2000, 512, 4608) :: bss_sections 1 0x3000 95).

(** As [img1], followed by 76 bytes of overlay ([0xAA]) after the last
    section. *)
Definition img_overlay : bytes := img1 ++ repeat xaa 76.

(** 96 sections, the first of them already named [.bun]. *)
Definition img96_bun : bytes :=
  build_image 5120 0x80 512 4096 0x62000 4608
    ((BUN_NAME, 0x1000, 0x2000, 512, 4608) :: bss_sections 1 0x3000 95).

(** [img1] with the magic of the 32-bit variant (0x10B). *)
Definition img_pe32 : bytes := put_u 2 152 0x10B img1.

(** [img1] with a damaged signature. *)
Definition img_bad_sig : bytes := put 128 [x4e; x45; x00; x00] img1.

(** One section whose virtual extent ends at [2^32]: the next section's
    virtual address does not fit a 32-bit field. *)
Definition img_high_va : bytes :=
  build_image 1024 0x80 512 4096 0xFFFFF000 512
    [(numbered_name 0, 0x1000, 0xFFFFF000, 512, 512)].

(** [well_formed] without its last requirement: everything a well-formed
    64-bit image needs except that some section has raw data. *)
Definition well_formed_headersb (pe : bytes) : bool :=
  let h := headers_of pe in
  (0x40 <=? len pe)
  && (0x40 <=? e_lfanew h)
  && bytes_eqb (pe_sig_of pe) PE_SIG
  && (magic_of pe =? 0x20B)
  && (152 <=? size_of_optional h)
  && (section_headers_offset h + 40 * num_sections h <=? len pe)
  && is_pow2 (file_alignment h)
  && is_pow2 (section_alignment h)
  && forallb (fun s => negb (bytes_eqb (name s) BUN_NAME)) (sections h).

Definition well_formed_headers (pe : bytes) : Prop := well_formed_headersb pe = true.

(** At least one section of the image has raw data in the file
    ([raw_size > 0]). *)
Definition has_raw_data (pe : bytes) : Prop :=
  existsb (fun s => raw_size s >? 0) (sections (headers_of pe)) = true.

(** One section, without raw data ([raw_size = 0], [raw_ptr = 0]): every
    invariant of the data model holds, and the headers have room. *)
Definition img_bss_only : bytes :=
  build_image 1024 0x80 512 4096 0x2000 512
    [(numbered_name 0, 0x1000, 0x1000, 0, 0)].

(** As [img1], with a stored [size_of_headers] (448) that covers the present
    table but not one more record once aligned (512). *)
Definition img_small_headers : bytes :=
  build_image 1024 0x80 512 4096 0x2000 448
    [(numbered_name 0, 0x100, 0x1000, 512, 512)].

(** The plain sum of a buffer's little-endian 16-bit words, a trailing odd
    byte counted as a word of its own. *)
Fixpoint word_total (data : bytes) : Z :=
  match data with
  | b0 :: b1 :: rest => Z_of_byte b0 + 256 * Z_of_byte b1 + word_total rest
  | [b] => Z_of_byte b
  | [] => 0
  end.

(** * Proofs *)

(** ** Bytes and little-endian numbers *)

Lemma Z_of_byte_range (b : byte) : 0 <= Z_of_byte b < 256.
Proof.
  unfold Z_of_byte. pose proof (Byte.to_N_bounded b). lia.
Qed.

Lemma Z_of_byte_of_Z (z : Z) : Z_of_byte (byte_of_Z z) = z mod 256.
Proof.
  unfold Z_of_byte, byte_of_Z.
  pose proof (Z.mod_pos_bound z 256 ltac:(lia)) as Hm.
  destruct (Byte.of_N (Z.to_N (z mod 256))) as [b|] eqn:E.
  - apply Byte.to_of_N in E. rewrite E. lia.
  - apply Byte.of_N_None_iff in E. lia.
Qed.

Lemma byte_of_Z_of_byte (b : byte) : byte_of_Z (Z_of_byte b) = b.
Proof.
  unfold byte_of_Z.
  rewrite Z.mod_small by apply Z_of_byte_range.
  unfold Z_of_byte. rewrite N2Z.id, Byte.of_to_N. reflexivity.
Qed.

Lemma length_le_encode (n : nat) (v : Z) : length (le_encode n v) = n.
Proof.
  revert v. induction n as [|n IH]; intros v; simpl; [reflexivity|].
  now rewrite IH.
Qed.

Lemma len_le_encode (n : nat) (v : Z) : len (le_encode n v) = Z.of_nat n.
Proof. unfold len. now rewrite length_le_encode. Qed.

Lemma le_decode_range (bs : bytes) : 0 <= le_decode bs < 2 ^ (8 * len bs).
Proof.
  unfold len. induction bs as [|b bs IH].
  - simpl. lia.
  - cbn [le_decode length]. pose proof (Z_of_byte_range b).
    replace (8 * Z.of_nat (S (length bs))) with (8 + 8 * Z.of_nat (length bs)) by lia.
    rewrite Z.pow_add_r by lia. change (2 ^ 8) with 256. lia.
Qed.

Lemma le_decode_encode (n : nat) (v : Z) :
  le_decode (le_encode n v) = v mod 2 ^ (8 * Z.of_nat n).
Proof.
  revert v. induction n as [|n IH]; intros v.
  - simpl. now rewrite Z.mod_1_r.
  - cbn [le_encode le_decode]. rewrite Z_of_byte_of_Z, IH.
    replace (8 * Z.of_nat (S n)) with (8 + 8 * Z.of_nat n) by lia.
    rewrite Z.pow_add_r by lia. change (2 ^ 8) with 256.
    rewrite (Z.rem_mul_r v 256 (2 ^ (8 * Z.of_nat n))) by lia. lia.
Qed.

Lemma le_decode_encode_small (n : nat) (v : Z) :
  0 <= v < 2 ^ (8 * Z.of_nat n) -> le_decode (le_encode n v) = v.
Proof.
  intros H. rewrite le_decode_encode. now apply Z.mod_small.
Qed.

Lemma le_encode_decode (bs : bytes) : le_encode (length bs) (le_decode bs) = bs.
Proof.
  induction bs as [|b bs IH]; [reflexivity|].
  cbn [length le_encode le_decode].
  pose proof (Z_of_byte_range b) as Hb.
  f_equal.
  - rewrite <- (byte_of_Z_of_byte b) at 2. unfold byte_of_Z.
    replace ((Z_of_byte b + 256 * le_decode bs) mod 256) with (Z_of_byte b mod 256);
      [reflexivity|].
    replace (Z_of_byte b + 256 * le_decode bs) with (Z_of_byte b + le_decode bs * 256)
      by lia.
    now rewrite Z.mod_add by lia.
  - replace ((Z_of_byte b + 256 * le_decode bs) / 256) with (le_decode bs); [exact IH|].
    replace (Z_of_byte b + 256 * le_decode bs) with (Z_of_byte b + le_decode bs * 256)
      by lia.
    rewrite Z.div_add by lia. rewrite (Z.div_small (Z_of_byte b)) by lia. lia.
Qed.

Lemma bytes_eqb_true (a b : bytes) : bytes_eqb a b = true <-> a = b.
Proof.
  unfold bytes_eqb. destruct (list_eq_dec Byte.byte_eq_dec a b); split;
    congruence.
Qed.

Lemma bytes_eqb_refl (a : bytes) : bytes_eqb a a = true.
Proof. now apply bytes_eqb_true. Qed.

(** ** Slices *)

Lemma len_nonneg (data : bytes) : 0 <= len data.
Proof. unfold len. lia. Qed.

Lemma len_app (a b : bytes) : len (a ++ b) = len a + len b.
Proof. unfold len. rewrite length_app. lia. Qed.

Lemma len_zeros (n : Z) : len (zeros n) = Z.max 0 n.
Proof. unfold len, zeros. rewrite repeat_length. lia. Qed.

Lemma len_slice (data : bytes) (lo hi : Z) :
  0 <= lo -> lo <= hi -> hi <= len data -> len (slice data lo hi) = hi - lo.
Proof.
  unfold len, slice. intros. rewrite length_firstn, length_skipn. lia.
Qed.

Lemma len_slice_assign (data : bytes) (lo hi : Z) (v : bytes) :
  0 <= lo -> hi = lo + len v -> hi <= len data ->
  len (slice_assign data lo hi v) = len data.
Proof.
  unfold len, slice_assign. intros.
  rewrite !length_app, length_firstn, length_skipn. lia.
Qed.

Lemma len_slice_assign_ge (data : bytes) (lo hi : Z) (v : bytes) :
  0 <= lo -> hi - lo <= len v ->
  len data <= len (slice_assign data lo hi v).
Proof.
  unfold len, slice_assign. intros.
  rewrite !length_app, length_firstn, length_skipn. lia.
Qed.

Ltac nth_cases :=
  repeat match goal with
         | |- context [Nat.ltb ?x ?y] => destruct (Nat.ltb_spec x y)
         end;
  try lia; try reflexivity; try (f_equal; lia);
  try match goal with
      | |- nth_error ?l ?a = nth_error ?l ?b =>
          destruct (Nat.le_gt_cases (length l) b);
          [ rewrite (proj2 (nth_error_None l a)), (proj2 (nth_error_None l b)) by lia;
            reflexivity
          | f_equal; lia ]
      | |- None = nth_error ?l ?b => symmetry; apply nth_error_None; lia
      | |- nth_error ?l ?b = None => apply nth_error_None; lia
      end.

Ltac nth_simp :=
  unfold slice, slice_assign, len in *;
  apply nth_error_ext; intros ?i;
  repeat rewrite ?nth_error_firstn, ?nth_error_skipn, ?nth_error_app,
    ?length_firstn, ?length_skipn, ?length_app;
  nth_cases.

(** A slice lying before an assigned slice is not changed. *)
Lemma slice_assign_before (data : bytes) (lo hi : Z) (v : bytes) (a b : Z) :
  0 <= a -> b <= lo -> b <= len data ->
  slice (slice_assign data lo hi v) a b = slice data a b.
Proof. intros. nth_simp. Qed.

(** What was assigned is read back. *)
Lemma slice_assign_same (data : bytes) (lo hi : Z) (v : bytes) :
  0 <= lo -> lo <= len data ->
  slice (slice_assign data lo hi v) lo (lo + len v) = v.
Proof.
  intros. nth_simp.
Qed.

(** A slice lying after a slice overwritten in place is not changed. *)
Lemma slice_assign_after (data : bytes) (lo hi : Z) (v : bytes) (a b : Z) :
  0 <= lo -> hi = lo + len v -> hi <= len data -> hi <= a ->
  slice (slice_assign data lo hi v) a b = slice data a b.
Proof. intros. nth_simp. Qed.

Lemma slice_assign_disjoint (data : bytes) (lo hi : Z) (v : bytes) (a b : Z) :
  0 <= lo -> hi = lo + len v -> hi <= len data ->
  0 <= a -> b <= lo \/ hi <= a ->
  slice (slice_assign data lo hi v) a b = slice data a b.
Proof.
  intros Hlo Hhi Hin Ha [Hb | Hb]; pose proof (len_nonneg v).
  - apply slice_assign_before; lia.
  - apply slice_assign_after; lia.
Qed.

Lemma slice_app_left (a b : bytes) (lo hi : Z) :
  0 <= lo -> hi <= len a -> slice (a ++ b) lo hi = slice a lo hi.
Proof. intros. nth_simp. Qed.

Lemma slice_full (data : bytes) : slice data 0 (len data) = data.
Proof.
  unfold slice, len. rewrite Z.sub_0_r, Nat2Z.id. simpl. apply firstn_all.
Qed.

Lemma slice_slice (data : bytes) (lo hi a b : Z) :
  0 <= lo -> 0 <= a -> a <= b -> lo + b <= hi ->
  slice (slice data lo hi) a b = slice data (lo + a) (lo + b).
Proof. intros. nth_simp. Qed.

Lemma slice_split (data : bytes) (lo mid hi : Z) :
  0 <= lo -> lo <= mid -> mid <= hi ->
  slice data lo hi = slice data lo mid ++ slice data mid hi.
Proof. intros. nth_simp. Qed.

(** ** Reading and writing scalars *)

Lemma unpack_from_ok (n : nat) (data : bytes) (offset : Z) :
  0 <= offset -> offset + Z.of_nat n <= len data ->
  unpack_from n data offset = Ok (le_decode (slice data offset (offset + Z.of_nat n))).
Proof.
  intros H1 H2. unfold unpack_from.
  apply Z.leb_le in H1, H2. now rewrite H1, H2.
Qed.

Lemma unpack_from_inv (n : nat) (data : bytes) (offset v : Z) :
  unpack_from n data offset = Ok v ->
  0 <= offset /\ offset + Z.of_nat n <= len data
  /\ v = le_decode (slice data offset (offset + Z.of_nat n)).
Proof.
  unfold unpack_from.
  destruct (0 <=? offset) eqn:E1; [|discriminate].
  destruct (offset + Z.of_nat n <=? len data) eqn:E2; [|discriminate].
  simpl. intros [= <-]. apply Z.leb_le in E1, E2. auto.
Qed.

Lemma unpack_from_range (n : nat) (data : bytes) (offset v : Z) :
  unpack_from n data offset = Ok v -> 0 <= v < 2 ^ (8 * Z.of_nat n).
Proof.
  intros H. apply unpack_from_inv in H as (H1 & H2 & ->).
  pose proof (le_decode_range (slice data offset (offset + Z.of_nat n))) as Hr.
  rewrite len_slice in Hr by lia.
  replace (offset + Z.of_nat n - offset) with (Z.of_nat n) in Hr by lia.
  exact Hr.
Qed.

Lemma pack_into_ok (n : nat) (data : bytes) (offset val : Z) :
  0 <= val < 2 ^ (8 * Z.of_nat n) ->
  0 <= offset -> offset + Z.of_nat n <= len data ->
  pack_into n data offset val
  = Ok (slice_assign data offset (offset + Z.of_nat n) (le_encode n val)).
Proof.
  intros [H1 H2] H3 H4. unfold pack_into.
  apply Z.leb_le in H1, H3, H4. apply Z.ltb_lt in H2.
  now rewrite H1, H2, H3, H4.
Qed.

Lemma pack_into_inv (n : nat) (data : bytes) (offset val : Z) (data' : bytes) :
  pack_into n data offset val = Ok data' ->
  0 <= val < 2 ^ (8 * Z.of_nat n)
  /\ 0 <= offset /\ offset + Z.of_nat n <= len data
  /\ data' = slice_assign data offset (offset + Z.of_nat n) (le_encode n val).
Proof.
  unfold pack_into.
  destruct (0 <=? val) eqn:E1; [|discriminate].
  destruct (val <? 2 ^ (8 * Z.of_nat n)) eqn:E2; [|discriminate].
  destruct (0 <=? offset) eqn:E3; [|discriminate].
  destruct (offset + Z.of_nat n <=? len data) eqn:E4; [|discriminate].
  simpl. intros [= <-].
  apply Z.leb_le in E1, E3, E4. apply Z.ltb_lt in E2. auto.
Qed.

(** A successful [pack_into] keeps the length, stores the value and leaves
    every disjoint slice alone. *)
Lemma pack_into_len (n : nat) (data : bytes) (offset val : Z) (data' : bytes) :
  pack_into n data offset val = Ok data' -> len data' = len data.
Proof.
  intros H. apply pack_into_inv in H as (_ & H1 & H2 & ->).
  apply len_slice_assign; rewrite ?len_le_encode; lia.
Qed.

Lemma pack_into_same (n : nat) (data : bytes) (offset val : Z) (data' : bytes) :
  pack_into n data offset val = Ok data' ->
  slice data' offset (offset + Z.of_nat n) = le_encode n val.
Proof.
  intros H. apply pack_into_inv in H as (_ & H1 & H2 & ->).
  rewrite <- (len_le_encode n val) at 2.
  apply slice_assign_same; lia.
Qed.

Lemma pack_into_other (n : nat) (data : bytes) (offset val : Z) (data' : bytes)
      (a b : Z) :
  pack_into n data offset val = Ok data' ->
  0 <= a -> b <= offset \/ offset + Z.of_nat n <= a ->
  slice data' a b = slice data a b.
Proof.
  intros H Ha Hd. apply pack_into_inv in H as (_ & H1 & H2 & ->).
  apply slice_assign_disjoint; rewrite ?len_le_encode; lia.
Qed.

Lemma unpack_pack_same (n : nat) (data : bytes) (offset val : Z) (data' : bytes) :
  pack_into n data offset val = Ok data' ->
  unpack_from n data' offset = Ok val.
Proof.
  intros H. pose proof (pack_into_len _ _ _ _ _ H) as Hl.
  pose proof (pack_into_same _ _ _ _ _ H) as Hs.
  apply pack_into_inv in H as (Hv & H1 & H2 & _).
  rewrite unpack_from_ok by lia. rewrite Hs.
  now rewrite le_decode_encode_small.
Qed.

Lemma unpack_from_slice_eq (n : nat) (d d' : bytes) (offset : Z) :
  len d' = len d ->
  slice d' offset (offset + Z.of_nat n) = slice d offset (offset + Z.of_nat n) ->
  unpack_from n d' offset = unpack_from n d offset.
Proof.
  intros Hl Hs. unfold unpack_from. now rewrite Hl, Hs.
Qed.

(** ** Alignment *)

Lemma is_pow2_spec (a : Z) : is_pow2 a = true -> power_of_two a.
Proof.
  unfold is_pow2. intros H. apply andb_true_iff in H as [H1 H2].
  apply Z.ltb_lt in H1. apply Z.eqb_eq in H2.
  exists (Z.log2 a). split; [apply Z.log2_nonneg | exact H2].
Qed.

Lemma power_of_two_pos (a : Z) : power_of_two a -> 0 < a.
Proof. intros (k & Hk & ->). now apply Z.pow_pos_nonneg. Qed.

Lemma align_up_pow2 (v k : Z) :
  0 <= k -> align_up v (2 ^ k) = (v + 2 ^ k - 1) / 2 ^ k * 2 ^ k.
Proof.
  intros Hk. unfold align_up.
  replace (2 ^ k - 1) with (Z.ones k) by (rewrite Z.ones_equiv; lia).
  rewrite <- Z.ldiff_land, Z.ldiff_ones_r by exact Hk.
  rewrite Z.shiftl_mul_pow2, Z.shiftr_div_pow2 by exact Hk.
  reflexivity.
Qed.

Lemma align_up_rounds_up (v a : Z) :
  power_of_two a -> rounds_up (align_up v a) v a.
Proof.
  intros (k & Hk & ->). rewrite align_up_pow2 by exact Hk.
  assert (0 < 2 ^ k) as Hp by now apply Z.pow_pos_nonneg.
  split.
  - apply Z.divide_factor_r.
  - pose proof (Z.div_mod (v + 2 ^ k - 1) (2 ^ k) ltac:(lia)) as Hd.
    pose proof (Z.mod_pos_bound (v + 2 ^ k - 1) (2 ^ k) Hp) as Hm.
    lia.
Qed.

(** Rounding up is determined by its specification. *)
Lemma rounds_up_unique (r r' v a : Z) :
  0 < a -> rounds_up r v a -> rounds_up r' v a -> r = r'.
Proof.
  intros Ha [[q ->] H1] [[q' ->] H2].
  assert (q = q') by nia. now subst.
Qed.

Lemma align_up_ge (v a : Z) : power_of_two a -> v <= align_up v a.
Proof. intros H. apply (align_up_rounds_up v) in H as [_ H]. lia. Qed.

Lemma align_up_nonneg (v a : Z) : 0 <= v -> 0 <= a -> 0 <= align_up v a.
Proof.
  intros Hv Ha. unfold align_up. apply Z.land_nonneg.
  destruct (Z.eq_dec a 0) as [-> | Hn].
  - right. change (Z.lnot (0 - 1)) with 0. lia.
  - left. lia.
Qed.

Lemma align_up_multiple (v a : Z) : power_of_two a -> align_up v a mod a = 0.
Proof.
  intros H. pose proof (power_of_two_pos a H).
  apply (align_up_rounds_up v) in H as [H _].
  apply Z.mod_divide; [lia | exact H].
Qed.

(** ** Maxima and minima with a default *)

Lemma fold_left_max_ge (xs : list Z) (x : Z) : x <= fold_left Z.max xs x.
Proof.
  revert x. induction xs as [|y ys IH]; intros x; simpl; [lia|].
  specialize (IH (Z.max x y)). lia.
Qed.

Lemma fold_left_max_in (xs : list Z) (x y : Z) :
  In y xs -> y <= fold_left Z.max xs x.
Proof.
  revert x. induction xs as [|z zs IH]; intros x; simpl; [tauto|].
  intros [-> | H].
  - pose proof (fold_left_max_ge zs (Z.max x y)). lia.
  - now apply IH.
Qed.

Lemma fold_left_max_attained (xs : list Z) (x : Z) :
  fold_left Z.max xs x = x \/ In (fold_left Z.max xs x) xs.
Proof.
  revert x. induction xs as [|z zs IH]; intros x; simpl; [now left|].
  destruct (IH (Z.max x z)) as [H | H].
  - rewrite H. destruct (Z.max_spec x z) as [[_ ->] | [_ ->]]; auto.
  - auto.
Qed.

Lemma fold_left_min_le (xs : list Z) (x : Z) : fold_left Z.min xs x <= x.
Proof.
  revert x. induction xs as [|y ys IH]; intros x; simpl; [lia|].
  specialize (IH (Z.min x y)). lia.
Qed.

Lemma fold_left_min_in (xs : list Z) (x y : Z) :
  In y xs -> fold_left Z.min xs x <= y.
Proof.
  revert x. induction xs as [|z zs IH]; intros x; simpl; [tauto|].
  intros [-> | H].
  - pose proof (fold_left_min_le zs (Z.min x y)). lia.
  - now apply IH.
Qed.

Lemma fold_left_min_attained (xs : list Z) (x : Z) :
  fold_left Z.min xs x = x \/ In (fold_left Z.min xs x) xs.
Proof.
  revert x. induction xs as [|z zs IH]; intros x; simpl; [now left|].
  destruct (IH (Z.min x z)) as [H | H].
  - rewrite H. destruct (Z.min_spec x z) as [[_ ->] | [_ ->]]; auto.
  - auto.
Qed.

Lemma max_default_spec (xs : list Z) (d : Z) : is_max_of (max_default xs d) xs d.
Proof.
  destruct xs as [|x rest]; [left; auto|]. right. simpl. split.
  - destruct (fold_left_max_attained rest x) as [-> | H]; auto.
  - intros y [<- | H]; [apply fold_left_max_ge | now apply fold_left_max_in].
Qed.

Lemma min_default_spec (xs : list Z) (d : Z) : is_min_of (min_default xs d) xs d.
Proof.
  destruct xs as [|x rest]; [left; auto|]. right. simpl. split.
  - destruct (fold_left_min_attained rest x) as [-> | H]; auto.
  - intros y [<- | H]; [apply fold_left_min_le | now apply fold_left_min_in].
Qed.

Lemma max_default_ge (xs : list Z) (d x : Z) : In x xs -> x <= max_default xs d.
Proof.
  intros H. destruct (max_default_spec xs d) as [[-> _] | [_ Hm]]; [easy | auto].
Qed.

Lemma min_default_le (xs : list Z) (d x : Z) : In x xs -> min_default xs d <= x.
Proof.
  intros H. destruct (min_default_spec xs d) as [[-> _] | [_ Hm]]; [easy | auto].
Qed.

Lemma max_default_nonneg (xs : list Z) :
  (forall x, In x xs -> 0 <= x) -> 0 <= max_default xs 0.
Proof.
  intros H. destruct (max_default_spec xs 0) as [[_ ->] | [Hi _]]; [lia | auto].
Qed.

Ltac hproj :=
  cbn [e_lfanew coff_offset machine num_sections size_of_optional opt_offset
       file_alignment section_alignment size_of_image size_of_headers
       checksum_offset security_dd_offset section_headers_offset sections] in *.

Ltac inv_bind H :=
  match type of H with
  | bind ?m _ = Ok _ =>
      let E := fresh "E" in
      destruct m eqn:E; [cbn [bind] in H | discriminate H]
  end.

Tactic Notation "inv_bind_as" hyp(H) ident(x) ident(E) :=
  match type of H with
  | bind ?m _ = Ok _ =>
      destruct m as [x|] eqn:E; [cbn [bind] in H | discriminate H]
  end.

Lemma assert_inv (b : bool) (e : error) (u : unit) : assert_ b e = Ok u -> b = true.
Proof. unfold assert_. destruct b; [reflexivity | discriminate]. Qed.

Lemma u16_at_range (data : bytes) (o : Z) : 0 <= u16_at data o < 2 ^ 16.
Proof.
  unfold u16_at. pose proof (le_decode_range (slice data o (o + 2))) as H.
  assert (len (slice data o (o + 2)) <= 2)
    by (unfold len, slice; rewrite length_firstn; lia).
  assert (2 ^ (8 * len (slice data o (o + 2))) <= 2 ^ 16)
    by (apply Z.pow_le_mono_r; pose proof (len_nonneg (slice data o (o + 2))); lia).
  lia.
Qed.

Lemma u32_at_range (data : bytes) (o : Z) : 0 <= u32_at data o < 2 ^ 32.
Proof.
  unfold u32_at. pose proof (le_decode_range (slice data o (o + 4))) as H.
  assert (len (slice data o (o + 4)) <= 4)
    by (unfold len, slice; rewrite length_firstn; lia).
  assert (2 ^ (8 * len (slice data o (o + 4))) <= 2 ^ 32)
    by (apply Z.pow_le_mono_r; pose proof (len_nonneg (slice data o (o + 4))); lia).
  lia.
Qed.

Lemma read_u16_ok (data : bytes) (o : Z) :
  0 <= o -> o + 2 <= len data -> read_u16 data o = Ok (u16_at data o).
Proof. intros. unfold read_u16. now rewrite unpack_from_ok by lia. Qed.

Lemma read_u32_ok (data : bytes) (o : Z) :
  0 <= o -> o + 4 <= len data -> read_u32 data o = Ok (u32_at data o).
Proof. intros. unfold read_u32. now rewrite unpack_from_ok by lia. Qed.

Lemma read_u16_inv (data : bytes) (o v : Z) :
  read_u16 data o = Ok v -> 0 <= o /\ o + 2 <= len data /\ v = u16_at data o.
Proof. intros H. apply unpack_from_inv in H. exact H. Qed.

Lemma read_u32_inv (data : bytes) (o v : Z) :
  read_u32 data o = Ok v -> 0 <= o /\ o + 4 <= len data /\ v = u32_at data o.
Proof. intros H. apply unpack_from_inv in H. exact H. Qed.

(** The section loop, when it returns, returns the table of the view; every
    record it read lies in the buffer and none bears the reserved name. *)
Lemma read_sections_inv (data : bytes) (table : Z) (k : nat) :
  forall (i : Z) (secs : list section),
    0 <= table -> 0 <= i ->
    read_sections data table i k = Ok secs ->
    secs = section_table data table i k
    /\ Forall (fun s => 0 <= off s /\ off s + 40 <= len data /\ name s <> BUN_NAME) secs.
Proof.
  induction k as [|k IH]; intros i secs Ht Hi H.
  - cbn in H. injection H as <-. split; [reflexivity | constructor].
  - cbn [read_sections] in H.
    inv_bind H. apply read_u32_inv in E as (Ho & _ & ->).
    inv_bind H. apply read_u32_inv in E as (_ & _ & ->).
    inv_bind H. apply read_u32_inv in E as (_ & _ & ->).
    inv_bind H. apply read_u32_inv in E as (_ & _ & ->).
    inv_bind H. apply read_u32_inv in E as (_ & Hb & ->).
    inv_bind H. apply assert_inv in E. apply negb_true_iff in E.
    inv_bind H. apply IH in E0 as [-> Hall]; [|lia..].
    injection H as <-. split; [reflexivity|].
    constructor; [|exact Hall]. cbn [off name]. unfold SECTION_HEADER_SIZE in *.
    repeat split; try lia.
    intros Hn. apply bytes_eqb_true in Hn. congruence.
Qed.

Lemma read_sections_ok (data : bytes) (table : Z) (k : nat) :
  forall i : Z,
    0 <= table -> 0 <= i ->
    table + (i + Z.of_nat k) * 40 <= len data ->
    Forall (fun s => name s <> BUN_NAME) (section_table data table i k) ->
    read_sections data table i k = Ok (section_table data table i k).
Proof.
  induction k as [|k IH]; intros i Ht Hi Hlen Hn; [reflexivity|].
  cbn [read_sections section_table] in *. unfold SECTION_HEADER_SIZE.
  inversion Hn as [|s l Hs Hrest]; subst.
  rewrite !read_u32_ok by lia. cbn [bind].
  cbn [section_at name] in Hs. unfold SECTION_HEADER_SIZE in Hs.
  destruct (bytes_eqb (slice data (table + i * 40) (table + i * 40 + 8)) BUN_NAME) eqn:E.
  - apply bytes_eqb_true in E. contradiction.
  - cbn [negb assert_ bind]. rewrite IH by (try assumption; lia). reflexivity.
Qed.

(** The section loop stops at the first record bearing the reserved name,
    provided the records up to it lie in the buffer. *)
Lemma read_sections_dup (data : bytes) (table : Z) (k : nat) :
  forall i : Z,
    0 <= table -> 0 <= i ->
    table + (i + Z.of_nat k) * 40 <= len data ->
    Exists (fun s => name s = BUN_NAME) (section_table data table i k) ->
    read_sections data table i k = Err DuplicateSection.
Proof.
  induction k as [|k IH]; intros i Ht Hi Hlen Hn.
  - inversion Hn.
  - cbn [read_sections section_table] in *. unfold SECTION_HEADER_SIZE.
    rewrite !read_u32_ok by lia. cbn [bind].
    destruct (bytes_eqb (slice data (table + i * 40) (table + i * 40 + 8)) BUN_NAME) eqn:E.
    + reflexivity.
    + cbn [negb assert_ bind].
      inversion Hn as [s l Hs | s l Hrest]; subst.
      * cbn [section_at name] in Hs. unfold SECTION_HEADER_SIZE in Hs.
        apply bytes_eqb_true in Hs. congruence.
      * rewrite IH by (try assumption; lia). reflexivity.
Qed.

Lemma headers_of_offsets (data : bytes) :
  let h := headers_of data in
  0 <= e_lfanew h < 2 ^ 32
  /\ coff_offset h = e_lfanew h + 4
  /\ opt_offset h = e_lfanew h + 24
  /\ checksum_offset h = opt_offset h + 64
  /\ security_dd_offset h = opt_offset h + 144
  /\ section_headers_offset h = opt_offset h + size_of_optional h
  /\ 0 <= size_of_optional h < 2 ^ 16
  /\ 0 <= num_sections h < 2 ^ 16.
Proof.
  unfold headers_of.
  cbn [e_lfanew coff_offset opt_offset checksum_offset security_dd_offset
       section_headers_offset size_of_optional num_sections].
  pose proof (u32_at_range data 0x3C).
  pose proof (u16_at_range data (u32_at data 0x3C + 4 + 16)).
  pose proof (u16_at_range data (u32_at data 0x3C + 4 + 2)).
  repeat split; lia.
Qed.

Lemma read_headers_chain (data : bytes) :
  chain_ok data ->
  read_headers data
  = (let h := headers_of data in
     secs <- read_sections data (section_headers_offset h) 0
               (Z.to_nat (num_sections h)) ;;
     _ <- assert_ (num_sections h <? 96) SectionLimitExceeded ;;
     Ok (with_sections h secs)).
Proof.
  intros (Hl & Hs & Hm & Ho).
  pose proof (u32_at_range data 0x3C) as He.
  unfold pe_sig_of, magic_of, headers_of in *. hproj.
  unfold read_headers.
  rewrite read_u32_ok by lia. cbn [bind].
  rewrite Hs. cbn [assert_ bind]. rewrite bytes_eqb_refl. cbn [bind].
  rewrite !read_u16_ok by lia. cbn [bind].
  rewrite Hm. cbn [Z.eqb Pos.eqb assert_ bind].
  rewrite !read_u32_ok by lia. cbn [bind].
  reflexivity.
Qed.

Lemma read_headers_inv (data : bytes) (h : headers) :
  read_headers data = Ok h ->
  h = headers_of data
  /\ chain_ok data
  /\ num_sections h < 96
  /\ Forall (fun s => 0 <= off s /\ off s + 40 <= len data /\ name s <> BUN_NAME)
       (sections h).
Proof.
  intros H.
  assert (chain_ok data) as Hc.
  { unfold read_headers in H.
    inv_bind H. apply read_u32_inv in E as (_ & Hl & ->).
    inv_bind H. apply assert_inv, bytes_eqb_true in E.
    inv_bind H. apply read_u16_inv in E0 as (_ & _ & ->).
    inv_bind H. apply read_u16_inv in E0 as (_ & _ & ->).
    inv_bind H. apply read_u16_inv in E0 as (_ & _ & ->).
    inv_bind H. apply read_u16_inv in E0 as (_ & _ & ->).
    inv_bind H. apply assert_inv, Z.eqb_eq in E0.
    inv_bind H. apply read_u32_inv in E1 as (_ & _ & ->).
    inv_bind H. apply read_u32_inv in E1 as (_ & _ & ->).
    inv_bind H. apply read_u32_inv in E1 as (_ & _ & ->).
    inv_bind H. apply read_u32_inv in E1 as (_ & Hb & ->).
    unfold chain_ok, pe_sig_of, magic_of, headers_of. hproj.
    repeat split; try assumption; lia. }
  rewrite (read_headers_chain data Hc) in H. cbv zeta in H.
  pose proof (headers_of_offsets data) as (He & _ & Hop & _ & _ & Hsh & Hso & _).
  cbv zeta in *.
  inv_bind H. apply read_sections_inv in E as [-> Hall]; [|lia..].
  inv_bind H. apply assert_inv, Z.ltb_lt in E.
  injection H as <-. split; [reflexivity|].
  split; [exact Hc|]. split; [exact E|]. exact Hall.
Qed.

Lemma read_headers_ok (data : bytes) :
  let h := headers_of data in
  chain_ok data ->
  section_headers_offset h + 40 * num_sections h <= len data ->
  Forall (fun s => name s <> BUN_NAME) (sections h) ->
  num_sections h < 96 ->
  read_headers data = Ok h.
Proof.
  intros h Hc Ht Hn H96. rewrite (read_headers_chain data Hc). cbv zeta.
  pose proof (headers_of_offsets data) as (He & _ & Hop & _ & _ & Hsh & Hso & Hns).
  cbv zeta in *. fold h in He, Hop, Hsh, Hso, Hns |- *.
  rewrite read_sections_ok; [| lia | lia | lia | exact Hn].
  cbn [bind]. apply Z.ltb_lt in H96. rewrite H96. reflexivity.
Qed.

Lemma read_headers_limit (data : bytes) :
  let h := headers_of data in
  chain_ok data ->
  section_headers_offset h + 40 * num_sections h <= len data ->
  Forall (fun s => name s <> BUN_NAME) (sections h) ->
  96 <= num_sections h ->
  read_headers data = Err SectionLimitExceeded.
Proof.
  intros h Hc Ht Hn H96. rewrite (read_headers_chain data Hc). cbv zeta.
  pose proof (headers_of_offsets data) as (He & _ & Hop & _ & _ & Hsh & Hso & Hns).
  cbv zeta in *. fold h in He, Hop, Hsh, Hso, Hns |- *.
  rewrite read_sections_ok; [| lia | lia | lia | exact Hn].
  cbn [bind]. apply Z.ltb_ge in H96. rewrite H96. reflexivity.
Qed.

Lemma read_headers_dup (data : bytes) :
  let h := headers_of data in
  chain_ok data ->
  section_headers_offset h + 40 * num_sections h <= len data ->
  Exists (fun s => name s = BUN_NAME) (sections h) ->
  read_headers data = Err DuplicateSection.
Proof.
  intros h Hc Ht Hn. rewrite (read_headers_chain data Hc). cbv zeta.
  pose proof (headers_of_offsets data) as (He & _ & Hop & _ & _ & Hsh & Hso & Hns).
  cbv zeta in *. fold h in He, Hop, Hsh, Hso, Hns |- *.
  rewrite read_sections_dup; [reflexivity | lia | lia | lia | exact Hn].
Qed.

(** ** The layout planner *)

Ltac lproj :=
  cbn [new_sh_off new_sh_end first_raw new_size_of_headers last_file_end
       last_va_end payload_len raw_size_new new_va new_raw] in *.

Lemma plan_layout_cases (data : bytes) (h : headers) (b : bytes) :
  let p := layout_of data h b in
  (new_size_of_headers p <= first_raw p /\ plan_layout data h b = Ok p)
  \/ (first_raw p < new_size_of_headers p
      /\ plan_layout data h b = Err InsufficientHeaderSpace).
Proof.
  unfold plan_layout, layout_of. lproj.
  destruct (align_up (section_headers_offset h + num_sections h * SECTION_HEADER_SIZE
                      + SECTION_HEADER_SIZE) (file_alignment h)
            <=? first_raw_of data (sections h)) eqn:E.
  - left. apply Z.leb_le in E. split; [exact E | reflexivity].
  - right. apply Z.leb_gt in E. split; [exact E | reflexivity].
Qed.

Lemma plan_layout_inv (data : bytes) (h : headers) (b : bytes) (p : layout) :
  plan_layout data h b = Ok p ->
  p = layout_of data h b /\ new_size_of_headers p <= first_raw p.
Proof.
  intros H. destruct (plan_layout_cases data h b) as [[H1 H2] | [_ H2]];
    rewrite H2 in H; [|discriminate].
  injection H as <-. auto.
Qed.

Lemma section_table_fields (data : bytes) (table : Z) (k : nat) :
  forall i s, In s (section_table data table i k) ->
    0 <= virtual_size s < 2 ^ 32 /\ 0 <= virtual_addr s < 2 ^ 32
    /\ 0 <= raw_size s < 2 ^ 32 /\ 0 <= raw_ptr s < 2 ^ 32.
Proof.
  induction k as [|k IH]; intros i s; cbn [section_table In]; [tauto|].
  intros [<- | H]; [|eauto].
  cbn [section_at virtual_size virtual_addr raw_size raw_ptr].
  repeat split; apply u32_at_range.
Qed.

Lemma sections_fields (data : bytes) (s : section) :
  In s (sections (headers_of data)) ->
  0 <= virtual_size s < 2 ^ 32 /\ 0 <= virtual_addr s < 2 ^ 32
  /\ 0 <= raw_size s < 2 ^ 32 /\ 0 <= raw_ptr s < 2 ^ 32.
Proof. unfold headers_of. hproj. apply section_table_fields. Qed.

Lemma last_file_end_nonneg (data : bytes) :
  0 <= last_file_end_of (sections (headers_of data)).
Proof.
  apply max_default_nonneg. intros x Hx. apply in_map_iff in Hx as (s & <- & Hs).
  apply sections_fields in Hs. lia.
Qed.

Lemma last_va_end_nonneg (data : bytes) (sa : Z) :
  0 <= sa -> 0 <= last_va_end_of sa (sections (headers_of data)).
Proof.
  intros Hsa. apply max_default_nonneg. intros x Hx.
  apply in_map_iff in Hx as (s & <- & Hs).
  apply sections_fields in Hs.
  pose proof (align_up_nonneg (Z.max (virtual_size s) (raw_size s)) sa). lia.
Qed.

(** C3: for every parsed input and payload for which the planner returns, with
    power-of-two alignments (the data model's precondition): the raw size is
    the payload length plus 8 rounded up to the file alignment; the new raw
    pointer is the greatest [raw_ptr + raw_size] of the existing sections (0
    when there is none) rounded up to the file alignment; the new virtual
    address is the greatest [virtual_addr + ext], [ext] being
    [max(virtual_size, raw_size)] rounded up to the section alignment,
    itself rounded up to the section alignment. *)
Theorem layout_planner_formulas (pe bundle : bytes) (h : headers) (p : layout) :
  read_headers pe = Ok h ->
  plan_layout pe h bundle = Ok p ->
  power_of_two (file_alignment h) ->
  power_of_two (section_alignment h) ->
  rounds_up (raw_size_new p) (len bundle + 8) (file_alignment h)
  /\ (exists m,
         is_max_of m (map (fun s => raw_ptr s + raw_size s) (sections h)) 0
         /\ rounds_up (new_raw p) m (file_alignment h))
  /\ (exists (ext : section -> Z) m,
         (forall s, rounds_up (ext s) (Z.max (virtual_size s) (raw_size s))
                      (section_alignment h))
         /\ is_max_of m (map (fun s => virtual_addr s + ext s) (sections h)) 0
         /\ rounds_up (new_va p) m (section_alignment h)).
Proof.
  intros _ Hp Hfa Hsa. apply plan_layout_inv in Hp as [-> _].
  unfold layout_of. lproj. split; [|split].
  - now apply align_up_rounds_up.
  - exists (last_file_end_of (sections h)). split.
    + apply max_default_spec.
    + now apply align_up_rounds_up.
  - exists (fun s => align_up (Z.max (virtual_size s) (raw_size s)) (section_alignment h)).
    exists (last_va_end_of (section_alignment h) (sections h)). split; [|split].
    + intros s. now apply align_up_rounds_up.
    + apply max_default_spec.
    + now apply align_up_rounds_up.
Qed.

(** ** The checksum engine *)

Lemma carry_fold_eq (c : Z) :
  Z.land c 0xFFFFFFFF + Z.shiftr c 32 = c mod 4294967296 + c / 4294967296.
Proof.
  change 0xFFFFFFFF with (Z.ones 32).
  rewrite Z.land_ones, Z.shiftr_div_pow2 by lia. reflexivity.
Qed.

Lemma sum_words_spec (data : bytes) :
  forall n acc, (length data <= n)%nat ->
    0 <= acc <= 0xFFFFFFFF ->
    sum_words acc data = spec_word_sum acc data
    /\ 0 <= sum_words acc data <= 0xFFFFFFFF.
Proof.
  intros n. revert data. induction n as [|n IH]; intros data acc Hn Hacc.
  - destruct data; [|simpl in Hn; lia]. simpl. split; [reflexivity | lia].
  - destruct data as [|b0 [|b1 rest]]; try (simpl; split; [reflexivity | lia]).
    cbn [sum_words spec_word_sum le_decode].
    pose proof (Z_of_byte_range b0) as H0. pose proof (Z_of_byte_range b1) as H1.
    set (c := acc + (Z_of_byte b0 + 256 * Z_of_byte b1)).
    replace (acc + (Z_of_byte b0 + 256 * (Z_of_byte b1 + 256 * 0))) with c
      by (unfold c; lia).
    assert (0 <= c <= 0xFFFFFFFF + 0xFFFF) as Hc by (unfold c; lia).
    rewrite !carry_fold_eq.
    assert (0 <= c mod 4294967296 + c / 4294967296 <= 0xFFFFFFFF) as Hf
      by (Z.div_mod_to_equations; lia).
    destruct (c >? 4294967295) eqn:E.
    + apply IH; [simpl in Hn; lia | exact Hf].
    + assert (c <= 4294967295) as Hle by (rewrite Z.gtb_ltb in E; apply Z.ltb_ge in E; lia).
      assert (c mod 4294967296 + c / 4294967296 = c) as ->
        by (Z.div_mod_to_equations; lia).
      apply IH; [simpl in Hn; lia | lia].
Qed.

Lemma land_ffff (c : Z) : Z.land c 0xFFFF = c mod 65536.
Proof. change 0xFFFF with (Z.ones 16). now rewrite Z.land_ones by lia. Qed.

Lemma shiftr_16 (c : Z) : Z.shiftr c 16 = c / 65536.
Proof. now rewrite Z.shiftr_div_pow2 by lia. Qed.

Lemma fold_twice (c : Z) :
  0 <= c <= 0xFFFFFFFF + 255 ->
  let c1 := Z.land c 0xFFFF + Z.shiftr c 16 in
  Z.land (c1 + Z.shiftr c1 16) 0xFFFF = fold16 (fold16 c)
  /\ 0 <= fold16 (fold16 c) <= 0xFFFF.
Proof.
  intros Hc. unfold fold16. cbv zeta.
  rewrite !land_ffff, !shiftr_16.
  Z.div_mod_to_equations. lia.
Qed.

Lemma checksum_of_spec (data : bytes) :
  checksum_of data = spec_checksum data
  /\ len data <= checksum_of data <= 0xFFFF + len data.
Proof.
  unfold checksum_of, spec_checksum.
  destruct (sum_words_spec data (length data) 0 (le_n _) ltac:(lia)) as [<- Hr].
  set (c := if len data mod 2 =? 0 then sum_words 0 data
            else sum_words 0 data + Z_of_byte (last data x00)).
  assert ((if len data mod 2 =? 1 then sum_words 0 data + Z_of_byte (last data x00)
           else sum_words 0 data) = c) as ->.
  { unfold c. pose proof (Z.mod_pos_bound (len data) 2 ltac:(lia)).
    destruct (len data mod 2 =? 0) eqn:E0; destruct (len data mod 2 =? 1) eqn:E1;
      try reflexivity; apply Z.eqb_eq in E0 || apply Z.eqb_neq in E0;
      apply Z.eqb_eq in E1 || apply Z.eqb_neq in E1; lia. }
  assert (0 <= c <= 0xFFFFFFFF + 255) as Hc.
  { unfold c. pose proof (Z_of_byte_range (last data x00)).
    destruct (len data mod 2 =? 0); lia. }
  destruct (fold_twice c Hc) as [-> Hf]. split; [reflexivity | lia].
Qed.

Lemma slice_assign_twice (data : bytes) (lo hi : Z) (v w : bytes) :
  0 <= lo -> hi = lo + len v -> hi <= len data -> len w = len v ->
  slice_assign (slice_assign data lo hi v) lo hi w = slice_assign data lo hi w.
Proof. intros. nth_simp. Qed.

Lemma le_encode_zero (n : nat) : le_encode n 0 = zeros (Z.of_nat n).
Proof.
  unfold zeros. rewrite Nat2Z.id. induction n as [|n IH]; [reflexivity|].
  cbn [le_encode repeat]. change (0 / 256) with 0. now rewrite IH.
Qed.

Lemma recompute_checksum_inv (data : bytes) (o : Z) (out : bytes) :
  recompute_checksum data o = Ok out ->
  exists d, write_u32 data o 0 = Ok d /\ write_u32 d o (checksum_of d) = Ok out.
Proof.
  unfold recompute_checksum. intros H. inv_bind H. eauto.
Qed.

Lemma recompute_checksum_ok (data : bytes) (o : Z) :
  0 <= o -> o + 4 <= len data -> len data + 0xFFFF < 2 ^ 32 ->
  exists out, recompute_checksum data o = Ok out.
Proof.
  intros Ho Hl Hb. unfold recompute_checksum, write_u32.
  rewrite pack_into_ok by (try split; lia). cbn [bind].
  set (d := slice_assign _ _ _ _).
  assert (len d = len data) as Hd
    by (unfold d; apply len_slice_assign; rewrite ?len_le_encode; lia).
  pose proof (checksum_of_spec d) as [_ Hc]. pose proof (len_nonneg d).
  rewrite pack_into_ok by (try split; lia). eauto.
Qed.

(** C2: for every buffer that holds the checksum field and is short enough
    for the result to fit the 32-bit field, [recompute_checksum] returns a
    buffer whose checksum field holds exactly the value of the
    specification's algorithm on the input; and running that algorithm on the
    output (which zeroes the field first) gives the stored value back. *)
Theorem recompute_checksum_matches_spec (data : bytes) (checksum_offset : Z) :
  0 <= checksum_offset ->
  checksum_offset + 4 <= len data ->
  len data + 0xFFFF < 2 ^ 32 ->
  exists out,
    recompute_checksum data checksum_offset = Ok out
    /\ read_u32 out checksum_offset = Ok (spec_image_checksum data checksum_offset)
    /\ spec_image_checksum out checksum_offset = u32_at out checksum_offset.
Proof.
  intros Ho Hl Hb.
  destruct (recompute_checksum_ok data checksum_offset Ho Hl Hb) as [out Hout].
  exists out. split; [exact Hout|].
  apply recompute_checksum_inv in Hout as (d & Hd & Hw).
  assert (d = zero_checksum_field data checksum_offset) as Hz.
  { apply pack_into_inv in Hd as (_ & _ & _ & ->).
    unfold zero_checksum_field. now rewrite le_encode_zero. }
  pose proof (checksum_of_spec d) as [Hspec Hrange].
  pose proof (unpack_pack_same _ _ _ _ _ Hw) as Hread.
  assert (read_u32 out checksum_offset = Ok (spec_image_checksum data checksum_offset))
    as Hr.
  { unfold read_u32, spec_image_checksum. rewrite Hread, <- Hz. now f_equal. }
  split; [exact Hr|].
  apply read_u32_inv in Hr as (_ & _ & Hu). rewrite <- Hu.
  unfold spec_image_checksum. f_equal.
  apply pack_into_inv in Hw as (_ & _ & _ & ->). subst d.
  unfold zero_checksum_field.
  assert (len (zeros 4) = 4) as Hz4 by reflexivity.
  rewrite !slice_assign_twice; rewrite ?len_le_encode, ?Hz4; try lia.
  - reflexivity.
  - rewrite len_slice_assign; rewrite ?Hz4; lia.
Qed.

(** ** The buffer mutator *)

Lemma u32_at_pack (d d' : bytes) (o v : Z) :
  pack_into 4 d o v = Ok d' -> u32_at d' o = v /\ 0 <= v < 2 ^ 32.
Proof.
  intros H. pose proof (unpack_pack_same _ _ _ _ _ H) as Hr.
  apply read_u32_inv in Hr as (_ & _ & Hr).
  apply pack_into_inv in H as (Hv & _). split; [now symmetry | exact Hv].
Qed.

Lemma u32_at_pack_other (n : nat) (d d' : bytes) (o v a : Z) :
  pack_into n d o v = Ok d' ->
  0 <= a -> a + 4 <= o \/ o + Z.of_nat n <= a ->
  u32_at d' a = u32_at d a.
Proof.
  intros H Ha Hd. unfold u32_at. f_equal.
  apply (pack_into_other _ _ _ _ _ _ _ H); lia.
Qed.

Lemma new_section_header_inv (p : layout) (sh : bytes) :
  new_section_header p = Ok sh ->
  len sh = 40
  /\ slice sh 0 8 = BUN_NAME
  /\ u32_at sh 8 = payload_len p
  /\ u32_at sh 12 = new_va p
  /\ u32_at sh 16 = raw_size_new p
  /\ u32_at sh 20 = new_raw p
  /\ 0 <= payload_len p < 2 ^ 32
  /\ 0 <= new_va p < 2 ^ 32
  /\ 0 <= raw_size_new p < 2 ^ 32
  /\ 0 <= new_raw p < 2 ^ 32.
Proof.
  unfold new_section_header. intros H.
  set (s0 := slice_assign (zeros SECTION_HEADER_SIZE) 0 8 BUN_NAME) in H.
  assert (len s0 = 40) as L0 by reflexivity.
  assert (slice s0 0 8 = BUN_NAME) as N0 by reflexivity.
  inv_bind_as H s1 H1.
  inv_bind_as H s2 H2.
  inv_bind_as H s3 H3.
  inv_bind_as H s4 H4.
  rename H into H5.
  pose proof (pack_into_len _ _ _ _ _ H1) as L1.
  pose proof (pack_into_len _ _ _ _ _ H2) as L2.
  pose proof (pack_into_len _ _ _ _ _ H3) as L3.
  pose proof (pack_into_len _ _ _ _ _ H4) as L4.
  pose proof (pack_into_len _ _ _ _ _ H5) as L5.
  destruct (u32_at_pack _ _ _ _ H1) as [V1 R1].
  destruct (u32_at_pack _ _ _ _ H2) as [V2 R2].
  destruct (u32_at_pack _ _ _ _ H3) as [V3 R3].
  destruct (u32_at_pack _ _ _ _ H4) as [V4 R4].
  split; [lia|]. split.
  - rewrite (pack_into_other _ _ _ _ _ 0 8 H5), (pack_into_other _ _ _ _ _ 0 8 H4),
      (pack_into_other _ _ _ _ _ 0 8 H3), (pack_into_other _ _ _ _ _ 0 8 H2),
      (pack_into_other _ _ _ _ _ 0 8 H1) by lia.
    exact N0.
  - repeat split; try lia.
    + rewrite (u32_at_pack_other _ _ _ _ _ 8 H5), (u32_at_pack_other _ _ _ _ _ 8 H4),
        (u32_at_pack_other _ _ _ _ _ 8 H3), (u32_at_pack_other _ _ _ _ _ 8 H2) by lia.
      exact V1.
    + rewrite (u32_at_pack_other _ _ _ _ _ 12 H5), (u32_at_pack_other _ _ _ _ _ 12 H4),
        (u32_at_pack_other _ _ _ _ _ 12 H3) by lia.
      exact V2.
    + rewrite (u32_at_pack_other _ _ _ _ _ 16 H5), (u32_at_pack_other _ _ _ _ _ 16 H4)
        by lia.
      exact V3.
    + rewrite (u32_at_pack_other _ _ _ _ _ 20 H5) by lia. exact V4.
Qed.

Lemma new_section_header_ok (p : layout) :
  0 <= payload_len p < 2 ^ 32 -> 0 <= new_va p < 2 ^ 32 ->
  0 <= raw_size_new p < 2 ^ 32 -> 0 <= new_raw p < 2 ^ 32 ->
  exists sh, new_section_header p = Ok sh.
Proof.
  intros R1 R2 R3 R4. unfold new_section_header.
  set (s0 := slice_assign (zeros SECTION_HEADER_SIZE) 0 8 BUN_NAME).
  assert (len s0 = 40) as L0 by reflexivity.
  destruct (pack_into 4 s0 8 (payload_len p)) as [s1|] eqn:H1;
    [|rewrite pack_into_ok in H1 by (try split; lia); discriminate].
  pose proof (pack_into_len _ _ _ _ _ H1) as L1. cbn [bind].
  destruct (pack_into 4 s1 12 (new_va p)) as [s2|] eqn:H2;
    [|rewrite pack_into_ok in H2 by (try split; lia); discriminate].
  pose proof (pack_into_len _ _ _ _ _ H2) as L2. cbn [bind].
  destruct (pack_into 4 s2 16 (raw_size_new p)) as [s3|] eqn:H3;
    [|rewrite pack_into_ok in H3 by (try split; lia); discriminate].
  pose proof (pack_into_len _ _ _ _ _ H3) as L3. cbn [bind].
  destruct (pack_into 4 s3 20 (new_raw p)) as [s4|] eqn:H4;
    [|rewrite pack_into_ok in H4 by (try split; lia); discriminate].
  pose proof (pack_into_len _ _ _ _ _ H4) as L4. cbn [bind].
  rewrite pack_into_ok; [eauto | | lia | lia].
  split; [vm_compute; discriminate | vm_compute; reflexivity].
Qed.

Lemma mutate_inv (data : bytes) (h : headers) (p : layout) (b d : bytes) :
  mutate data h p b = Ok d -> mutation data h p b d.
Proof.
  unfold mutate. intros H.
  inv_bind_as H sh Hsh.
  inv_bind_as H d1 H1.
  inv_bind_as H d2 H2.
  inv_bind_as H d3 H3.
  inv_bind_as H d4 H4.
  injection H as <-.
  exact (mkMutation data h p b _ sh d1 d2 d3 d4 Hsh H1 H2 H3 H4 eq_refl).
Qed.

Lemma pack_into_err (n : nat) (d : bytes) (o v : Z) (e : error) :
  pack_into n d o v = Err e -> e = StructError.
Proof.
  unfold pack_into.
  destruct ((0 <=? v) && (v <? 2 ^ (8 * Z.of_nat n)) && (0 <=? o)
            && (o + Z.of_nat n <=? len d)); [discriminate | congruence].
Qed.

Ltac err_bind H :=
  match type of H with
  | bind ?m _ = Err _ =>
      let E := fresh "E" in
      destruct m eqn:E;
      [cbn [bind] in H | cbn [bind] in H; injection H as <-]
  end.

(** [mutate] and [recompute_checksum] raise nothing but [struct.error]. *)
Lemma new_section_header_err (p : layout) (e : error) :
  new_section_header p = Err e -> e = StructError.
Proof.
  unfold new_section_header. intros H.
  repeat (err_bind H; [|eapply pack_into_err; eassumption]).
  eapply pack_into_err; eassumption.
Qed.

Lemma mutate_err (data : bytes) (h : headers) (p : layout) (b : bytes) (e : error) :
  mutate data h p b = Err e -> e = StructError.
Proof.
  unfold mutate. intros H.
  err_bind H; [|eapply new_section_header_err; eassumption].
  err_bind H; [|eapply pack_into_err; eassumption].
  err_bind H; [|eapply pack_into_err; eassumption].
  err_bind H.
  2:{ destruct (size_of_headers h <? new_size_of_headers p);
      [eapply pack_into_err; eassumption | discriminate]. }
  err_bind H; [discriminate | eapply pack_into_err; eassumption].
Qed.

Lemma recompute_checksum_err (d : bytes) (o : Z) (e : error) :
  recompute_checksum d o = Err e -> e = StructError.
Proof.
  unfold recompute_checksum. intros H.
  err_bind H; eapply pack_into_err; eassumption.
Qed.

(** ** The whole run *)

Lemma add_bun_section_inv (pe b out : bytes) :
  add_bun_section pe b = Ok out ->
  let h := headers_of pe in
  let p := layout_of pe h b in
  read_headers pe = Ok h
  /\ new_size_of_headers p <= first_raw p
  /\ exists d, mutation pe h p b d /\ recompute_checksum d (checksum_offset h) = Ok out.
Proof.
  unfold add_bun_section. intros H.
  inv_bind_as H h Hh. inv_bind_as H p Hp. inv_bind_as H d Hd.
  pose proof (read_headers_inv _ _ Hh) as (-> & _).
  apply plan_layout_inv in Hp as [-> Hroom].
  cbv zeta. split; [reflexivity|]. split; [exact Hroom|].
  exists d. split; [now apply mutate_inv | exact H].
Qed.

Lemma layout_nonneg (pe b : bytes) :
  let h := headers_of pe in
  let p := layout_of pe h b in
  0 <= new_sh_off p /\ 0 <= new_raw p /\ 0 <= raw_size_new p /\ 0 <= new_va p
  /\ 8 <= payload_len p /\ new_sh_end p = new_sh_off p + 40.
Proof.
  cbv zeta. unfold layout_of. lproj. unfold SECTION_HEADER_SIZE.
  pose proof (headers_of_offsets pe) as (He & _ & Hop & _ & _ & Hsh & Hso & Hns).
  cbv zeta in *.
  assert (0 <= file_alignment (headers_of pe))
    by (unfold headers_of; hproj; apply u32_at_range).
  assert (0 <= section_alignment (headers_of pe))
    by (unfold headers_of; hproj; apply u32_at_range).
  pose proof (last_file_end_nonneg pe).
  pose proof (last_va_end_nonneg pe (section_alignment (headers_of pe)) ltac:(lia)).
  pose proof (len_nonneg b).
  repeat split; try lia; apply align_up_nonneg; lia.
Qed.

Lemma len_extend_buffer (data : bytes) (new_raw raw_size_new : Z) :
  0 <= new_raw -> 0 <= raw_size_new ->
  len (extend_buffer data new_raw raw_size_new)
  = Z.max (len data) (new_raw + raw_size_new).
Proof.
  intros H1 H2. unfold extend_buffer.
  destruct (len data <? new_raw + raw_size_new) eqn:E.
  - apply Z.ltb_lt in E. rewrite len_app, len_zeros. lia.
  - apply Z.ltb_ge in E. rewrite len_slice_assign; rewrite ?len_zeros; lia.
Qed.

Lemma headers_step (d2 d3 : bytes) (c : bool) (o v : Z) :
  (if c then write_u32 d2 o v else Ok d2) = Ok d3 ->
  len d3 = len d2
  /\ forall a b, 0 <= a -> b <= o \/ o + 4 <= a -> slice d3 a b = slice d2 a b.
Proof.
  destruct c; intros H.
  - split; [eapply pack_into_len; eassumption|].
    intros a b Ha Hd. eapply pack_into_other; eauto.
  - injection H as <-. auto.
Qed.

(** What holds of every successful run, well-formed input or not: the buffer
    never shrinks, the section count is stored and survives the later writes,
    and the security entry is zeroed in place when the buffer holds it. *)
Lemma run_frame (pe b d out : bytes) :
  let h := headers_of pe in
  let p := layout_of pe h b in
  mutation pe h p b d ->
  recompute_checksum d (checksum_offset h) = Ok out ->
  exists d2,
    len pe <= len d2 /\ len d2 <= len out
    /\ coff_offset h + 4 <= len d2
    /\ u16_at d2 (coff_offset h + 2) = num_sections h + 1
    /\ num_sections h + 1 < 2 ^ 16
    /\ (forall a c, 0 <= a -> c <= opt_offset h + 56 -> c <= len d2 ->
                    slice out a c = slice d2 a c)
    /\ (security_dd_offset h + 8 <= len d2 ->
        len out = len d2
        /\ slice out (security_dd_offset h) (security_dd_offset h + 8) = zeros 8).
Proof.
  intros h p Hm Hck.
  pose proof (headers_of_offsets pe) as (He & Hco & Hop & Hcs & Hsd & Hsh & Hso & Hns).
  pose proof (layout_nonneg pe b) as (Lsh & Lraw & Lrs & Lva & Lpl & _).
  cbv zeta in *. fold h in He, Hco, Hop, Hcs, Hsd, Hsh, Hso, Hns.
  fold h p in Lsh, Lraw, Lrs, Lva, Lpl.
  destruct Hm as [sh d1 d2 d3 d4 Hsh' H1 H2 H3 H4 Hd].
  apply recompute_checksum_inv in Hck as (d' & Hc1 & Hc2).
  unfold write_u64, write_u16, write_u32 in *.
  pose proof (new_section_header_inv _ _ Hsh') as (Lsh' & _).
  pose proof (len_extend_buffer pe _ _ Lraw Lrs) as L0.
  set (d0 := extend_buffer pe (new_raw p) (raw_size_new p)) in *.
  pose proof (len_slice_assign_ge d0 (new_sh_off p) (new_sh_off p + SECTION_HEADER_SIZE) sh
                Lsh ltac:(unfold SECTION_HEADER_SIZE; lia)) as La.
  pose proof (pack_into_len _ _ _ _ _ H1) as L1.
  pose proof (len_slice_assign_ge d1 (new_raw p + 8) (new_raw p + 8 + len b) b
                ltac:(lia) ltac:(lia)) as Lb.
  pose proof (pack_into_len _ _ _ _ _ H2) as L2.
  pose proof (unpack_pack_same _ _ _ _ _ H2) as R2.
  apply read_u16_inv in R2 as (_ & B2 & R2).
  pose proof (pack_into_inv _ _ _ _ _ H2) as (V2 & _).
  destruct (headers_step _ _ _ _ _ H3) as [L3 F3].
  pose proof (pack_into_len _ _ _ _ _ H4) as L4.
  pose proof (pack_into_len _ _ _ _ _ Hc1) as L5.
  pose proof (pack_into_len _ _ _ _ _ Hc2) as L6.
  pose proof (len_slice_assign_ge d4 (security_dd_offset h) (security_dd_offset h + 8)
                (zeros 8) ltac:(lia) ltac:(change (len (zeros 8)) with 8; lia)) as Lc.
  rewrite <- Hd in Lc.
  exists d2. repeat split; try lia.
  - intros a c Ha Hc Hl.
    rewrite (pack_into_other _ _ _ _ _ a c Hc2), (pack_into_other _ _ _ _ _ a c Hc1)
      by lia.
    rewrite Hd, slice_assign_before by lia.
    rewrite (pack_into_other _ _ _ _ _ a c H4) by lia.
    apply F3; lia.
  - rewrite L6, L5, Hd. rewrite len_slice_assign; [lia | lia | reflexivity | lia].
  - rewrite (pack_into_other _ _ _ _ _ _ _ Hc2), (pack_into_other _ _ _ _ _ _ _ Hc1)
      by lia.
    rewrite Hd. change (security_dd_offset h + 8)
      with (security_dd_offset h + len (zeros 8)) at 2.
    apply slice_assign_same; lia.
Qed.

(** ** Well-formed images *)

Lemma well_formed_facts (pe : bytes) :
  well_formed pe ->
  let h := headers_of pe in
  0x40 <= len pe
  /\ 0x40 <= e_lfanew h
  /\ chain_ok pe
  /\ 152 <= size_of_optional h
  /\ section_headers_offset h + 40 * num_sections h <= len pe
  /\ power_of_two (file_alignment h)
  /\ power_of_two (section_alignment h)
  /\ Forall (fun s => name s <> BUN_NAME) (sections h)
  /\ (exists s, In s (sections h) /\ 0 < raw_size s).
Proof.
  unfold well_formed, well_formedb. cbv zeta. intros H.
  repeat (apply andb_true_iff in H as [H ?]).
  repeat match goal with
         | X : (_ <=? _) = true |- _ => apply Z.leb_le in X
         | X : (_ =? _) = true |- _ => apply Z.eqb_eq in X
         | X : bytes_eqb _ _ = true |- _ => apply bytes_eqb_true in X
         | X : is_pow2 _ = true |- _ => apply is_pow2_spec in X
         end.
  pose proof (headers_of_offsets pe) as (He & Hco & Hop & Hcs & Hsd & Hsh & Hso & Hns).
  cbv zeta in *.
  repeat split; try assumption; try lia.
  - apply Forall_forall. intros s Hs.
    match goal with X : forallb _ _ = true |- _ =>
      rewrite forallb_forall in X; specialize (X s Hs);
      apply negb_true_iff in X end.
    intros Hn. apply bytes_eqb_true in Hn. congruence.
  - match goal with X : existsb _ _ = true |- _ =>
      apply existsb_exists in X as (s & Hs & Hr) end.
    exists s. split; [exact Hs | lia].
Qed.

Lemma first_raw_le (data : bytes) (secs : list section) (s : section) :
  In s secs -> 0 < raw_size s -> first_raw_of data secs <= raw_ptr s.
Proof.
  intros Hs Hr. unfold first_raw_of. apply min_default_le.
  apply in_map. apply filter_In. split; [exact Hs | lia].
Qed.

Lemma last_file_end_ge (secs : list section) (s : section) :
  In s secs -> raw_ptr s + raw_size s <= last_file_end_of secs.
Proof.
  intros Hs. unfold last_file_end_of. apply max_default_ge.
  apply (in_map (fun s => raw_ptr s + raw_size s)). exact Hs.
Qed.

Lemma last_va_end_ge (sa : Z) (secs : list section) (s : section) :
  In s secs ->
  virtual_addr s + align_up (Z.max (virtual_size s) (raw_size s)) sa
  <= last_va_end_of sa secs.
Proof.
  intros Hs. unfold last_va_end_of. apply max_default_ge.
  apply (in_map (fun s => virtual_addr s
                          + align_up (Z.max (virtual_size s) (raw_size s)) sa)).
  exact Hs.
Qed.

Lemma sections_nonempty (pe : bytes) (s : section) :
  In s (sections (headers_of pe)) -> 1 <= num_sections (headers_of pe).
Proof.
  unfold headers_of. hproj.
  destruct (Z.to_nat (u16_at pe (u32_at pe 60 + 4 + 2))) eqn:E; [intros []|].
  intros _. lia.
Qed.

(** The placement computed for a well-formed image with header room. *)
Lemma wf_layout (pe b : bytes) :
  well_formed pe -> header_room pe ->
  let h := headers_of pe in
  let p := layout_of pe h b in
  new_sh_off p = section_headers_offset h + 40 * num_sections h
  /\ new_sh_end p = new_sh_off p + 40
  /\ new_sh_end p <= new_size_of_headers p
  /\ new_size_of_headers p <= first_raw p
  /\ first_raw p <= new_raw p
  /\ new_size_of_headers p < 2 ^ 32
  /\ payload_len p = len b + 8
  /\ payload_len p <= raw_size_new p
  /\ new_va p + payload_len p
     <= align_up (new_va p + payload_len p) (section_alignment h)
  /\ 1 <= num_sections h
  /\ 0 <= new_va p.
Proof.
  intros Hwf Hroom.
  pose proof (well_formed_facts pe Hwf) as (_ & _ & _ & _ & _ & Hfa & Hsa & _ & s & Hs & Hr).
  pose proof (layout_nonneg pe b) as (_ & _ & _ & Hva & _ & _).
  cbv zeta in *. unfold header_room in Hroom. cbv zeta in Hroom.
  unfold layout_of in *. lproj. unfold SECTION_HEADER_SIZE.
  set (h := headers_of pe) in *.
  replace (section_headers_offset h + num_sections h * 40 + 40)
    with (section_headers_offset h + (num_sections h + 1) * 40) by lia.
  pose proof (align_up_ge (section_headers_offset h + (num_sections h + 1) * 40) _ Hfa).
  pose proof (align_up_ge (len b + 8) _ Hfa).
  pose proof (align_up_ge (last_file_end_of (sections h)) _ Hfa).
  pose proof (align_up_ge
                (align_up (last_va_end_of (section_alignment h) (sections h))
                   (section_alignment h) + (len b + 8)) _ Hsa).
  pose proof (first_raw_le pe _ s Hs Hr).
  pose proof (last_file_end_ge _ s Hs).
  pose proof (sections_fields pe s Hs) as (_ & _ & _ & Hp).
  pose proof (sections_nonempty pe s Hs).
  fold h in H5.
  repeat split; lia.
Qed.

Lemma header_room_layout (pe b : bytes) :
  let p := layout_of pe (headers_of pe) b in
  new_size_of_headers p <= first_raw p <-> header_room pe.
Proof.
  cbv zeta. unfold header_room, layout_of. lproj. unfold SECTION_HEADER_SIZE.
  set (h := headers_of pe).
  replace (section_headers_offset h + num_sections h * 40 + 40)
    with (section_headers_offset h + (num_sections h + 1) * 40) by lia.
  reflexivity.
Qed.

(** What a successful run on a well-formed image leaves in the output. *)
Lemma wf_run (pe b out : bytes) :
  well_formed pe ->
  add_bun_section pe b = Ok out ->
  let h := headers_of pe in
  let p := layout_of pe h b in
  exists sh,
    new_section_header p = Ok sh
    /\ len out = Z.max (len pe) (new_raw p + raw_size_new p)
    /\ (forall a c, untouched h p b a c ->
          slice out a c = slice (extend_buffer pe (new_raw p) (raw_size_new p)) a c)
    /\ slice out (new_sh_off p) (new_sh_off p + 40) = sh
    /\ slice out (new_raw p) (new_raw p + 8) = le_encode 8 (len b)
    /\ slice out (new_raw p + 8) (new_raw p + 8 + len b) = b
    /\ u16_at out (coff_offset h + 2) = num_sections h + 1
    /\ u32_at out (opt_offset h + 56)
       = align_up (new_va p + payload_len p) (section_alignment h)
    /\ slice out (security_dd_offset h) (security_dd_offset h + 8) = zeros 8.
Proof.
  intros Hwf Hrun.
  pose proof (add_bun_section_inv _ _ _ Hrun) as (Hread & Hroom & d & Hm & Hck).
  apply header_room_layout in Hroom.
  pose proof (wf_layout pe b Hwf Hroom)
    as (Wsh & Wend & Wnh & Wfr & Wraw & Wh32 & Wpl & Wrs & Wimg & Wn & Wva).
  pose proof (well_formed_facts pe Hwf)
    as (Fl & Fe & Fc & Fso & Ft & Ffa & Fsa & Fnb & _).
  pose proof (headers_of_offsets pe) as (He & Hco & Hop & Hcs & Hsd & Hsh & Hso & Hns).
  pose proof (layout_nonneg pe b) as (Lsh & Lraw & Lrs & Lva & Lpl & _).
  cbv zeta in *.
  set (h := headers_of pe) in *. set (p := layout_of pe h b) in *.
  destruct Hm as [sh d1 d2 d3 d4 Hsh' H1 H2 H3 H4 Hd].
  apply recompute_checksum_inv in Hck as (d' & Hc1 & Hc2).
  unfold write_u64, write_u16, write_u32, SECTION_HEADER_SIZE in *.
  pose proof (new_section_header_inv _ _ Hsh') as (Lsh' & _).
  pose proof (len_extend_buffer pe _ _ Lraw Lrs) as L0.
  set (d0 := extend_buffer pe (new_raw p) (raw_size_new p)) in *.
  pose proof (len_nonneg b) as Lb.
  assert (len (zeros 8) = 8) as Lz by reflexivity.
  set (d0' := slice_assign d0 (new_sh_off p) (new_sh_off p + 40) sh) in *.
  assert (len d0' = len d0) as L0'
    by (unfold d0'; apply len_slice_assign; lia).
  pose proof (pack_into_len _ _ _ _ _ H1) as L1.
  set (d1' := slice_assign d1 (new_raw p + 8) (new_raw p + 8 + len b) b) in *.
  assert (len d1' = len d1) as L1'
    by (unfold d1'; apply len_slice_assign; lia).
  pose proof (pack_into_len _ _ _ _ _ H2) as L2.
  destruct (headers_step _ _ _ _ _ H3) as [L3 F3].
  pose proof (pack_into_len _ _ _ _ _ H4) as L4.
  assert (len d = len d4) as Ld
    by (rewrite Hd; apply len_slice_assign; lia).
  pose proof (pack_into_len _ _ _ _ _ Hc1) as L5.
  pose proof (pack_into_len _ _ _ _ _ Hc2) as L6.
  (* one frame per write *)
  assert (forall a c, 0 <= a -> c <= opt_offset h + 64 \/ opt_offset h + 68 <= a ->
                      slice out a c = slice d a c) as S8.
  { intros a c Ha Hd'.
    rewrite (pack_into_other _ _ _ _ _ a c Hc2), (pack_into_other _ _ _ _ _ a c Hc1)
      by lia. reflexivity. }
  assert (forall a c, 0 <= a ->
                      c <= security_dd_offset h \/ security_dd_offset h + 8 <= a ->
                      slice d a c = slice d4 a c) as S7.
  { intros a c Ha Hd'. rewrite Hd. apply slice_assign_disjoint; lia. }
  assert (forall a c, 0 <= a -> c <= opt_offset h + 56 \/ opt_offset h + 60 <= a ->
                      slice d4 a c = slice d3 a c) as S6.
  { intros a c Ha Hd'. apply (pack_into_other _ _ _ _ _ a c H4); lia. }
  assert (forall a c, 0 <= a -> c <= opt_offset h + 60 \/ opt_offset h + 64 <= a ->
                      slice d3 a c = slice d2 a c) as S5.
  { intros a c Ha Hd'. apply F3; lia. }
  assert (forall a c, 0 <= a -> c <= coff_offset h + 2 \/ coff_offset h + 4 <= a ->
                      slice d2 a c = slice d1' a c) as S4.
  { intros a c Ha Hd'. apply (pack_into_other _ _ _ _ _ a c H2); lia. }
  assert (forall a c, 0 <= a -> c <= new_raw p + 8 \/ new_raw p + 8 + len b <= a ->
                      slice d1' a c = slice d1 a c) as S3.
  { intros a c Ha Hd'. unfold d1'. apply slice_assign_disjoint; lia. }
  assert (forall a c, 0 <= a -> c <= new_raw p \/ new_raw p + 8 <= a ->
                      slice d1 a c = slice d0' a c) as S2.
  { intros a c Ha Hd'. apply (pack_into_other _ _ _ _ _ a c H1); lia. }
  assert (forall a c, 0 <= a -> c <= new_sh_off p \/ new_sh_off p + 40 <= a ->
                      slice d0' a c = slice d0 a c) as S1.
  { intros a c Ha Hd'. unfold d0'. apply slice_assign_disjoint; lia. }
  exists sh. split; [exact Hsh'|]. split; [lia|]. split; [|split; [|split; [|split]]].
  - intros a c (Ha & U1 & U2 & U3 & U4 & U5).
    rewrite S8, S7, S6, S5, S4, S3, S2, S1 by lia. reflexivity.
  - rewrite S8, S7, S6, S5, S4, S3, S2 by lia. unfold d0'.
    replace (new_sh_off p + 40) with (new_sh_off p + len sh) at 2 by lia.
    apply slice_assign_same; lia.
  - rewrite S8, S7, S6, S5, S4, S3 by lia.
    apply (pack_into_same _ _ _ _ _ H1).
  - rewrite S8, S7, S6, S5, S4 by lia. unfold d1'.
    apply slice_assign_same; lia.
  - split; [|split].
    + unfold u16_at. rewrite S8, S7, S6, S5 by lia.
      pose proof (pack_into_same _ _ _ _ _ H2) as X.
      change (Z.of_nat 2) with 2 in X. rewrite X.
      apply le_decode_encode_small.
      apply pack_into_inv in H2 as (V & _). exact V.
    + unfold u32_at. rewrite S8, S7 by lia.
      pose proof (pack_into_same _ _ _ _ _ H4) as X.
      change (Z.of_nat 4) with 4 in X. rewrite X.
      apply le_decode_encode_small.
      apply pack_into_inv in H4 as (V & _). exact V.
    + rewrite S8 by lia. rewrite Hd.
      replace (security_dd_offset h + 8) with (security_dd_offset h + len (zeros 8)) at 2
        by lia.
      apply slice_assign_same; lia.
Qed.

Lemma write_u16_ok (d : bytes) (o v : Z) :
  0 <= v < 2 ^ 16 -> 0 <= o -> o + 2 <= len d ->
  write_u16 d o v = Ok (slice_assign d o (o + 2) (le_encode 2 v)).
Proof. intros. unfold write_u16. now rewrite pack_into_ok by (try split; lia). Qed.

Lemma write_u32_ok (d : bytes) (o v : Z) :
  0 <= v < 2 ^ 32 -> 0 <= o -> o + 4 <= len d ->
  write_u32 d o v = Ok (slice_assign d o (o + 4) (le_encode 4 v)).
Proof. intros. unfold write_u32. now rewrite pack_into_ok by (try split; lia). Qed.

Lemma write_u64_ok (d : bytes) (o v : Z) :
  0 <= v < 2 ^ 64 -> 0 <= o -> o + 8 <= len d ->
  write_u64 d o v = Ok (slice_assign d o (o + 8) (le_encode 8 v)).
Proof. intros. unfold write_u64. now rewrite pack_into_ok by (try split; lia). Qed.

Lemma len_put (d : bytes) (n : nat) (o v : Z) :
  0 <= o -> o + Z.of_nat n <= len d ->
  len (slice_assign d o (o + Z.of_nat n) (le_encode n v)) = len d.
Proof. intros. apply len_slice_assign; rewrite ?len_le_encode; lia. Qed.

(** The mutator succeeds on a well-formed image with header room whose new
    section fits the 32-bit fields. *)
Lemma mutate_ok (pe b : bytes) :
  well_formed pe -> num_sections (headers_of pe) < 96 ->
  header_room pe -> fits32 pe b ->
  let h := headers_of pe in
  let p := layout_of pe h b in
  exists d, mutate pe h p b = Ok d
            /\ len d = Z.max (len pe) (new_raw p + raw_size_new p).
Proof.
  intros Hwf H96 Hroom [Hfit1 Hfit2].
  pose proof (wf_layout pe b Hwf Hroom)
    as (Wsh & Wend & Wnh & Wfr & Wraw & Wh32 & Wpl & Wrs & Wimg & Wn & Wva).
  pose proof (well_formed_facts pe Hwf)
    as (Fl & Fe & Fc & Fso & Ft & Ffa & Fsa & Fnb & _).
  pose proof (headers_of_offsets pe) as (He & Hco & Hop & Hcs & Hsd & Hsh & Hso & Hns).
  pose proof (layout_nonneg pe b) as (Lsh & Lraw & Lrs & Lva & Lpl & _).
  cbv zeta in *.
  set (h := headers_of pe) in *. set (p := layout_of pe h b) in *.
  pose proof (len_nonneg b) as Lb. pose proof (len_nonneg pe) as Lpe.
  destruct (new_section_header_ok p) as [sh Hsh']; try lia.
  pose proof (new_section_header_inv _ _ Hsh') as (Lsh' & _).
  pose proof (len_extend_buffer pe _ _ Lraw Lrs) as L0.
  unfold mutate. rewrite Hsh'. cbn [bind]. unfold SECTION_HEADER_SIZE.
  set (d0 := extend_buffer pe (new_raw p) (raw_size_new p)) in *.
  set (d0' := slice_assign d0 (new_sh_off p) (new_sh_off p + 40) sh).
  assert (len d0' = len d0) as L0'
    by (unfold d0'; apply len_slice_assign; lia).
  rewrite write_u64_ok by lia. cbn [bind].
  set (d1 := slice_assign d0' (new_raw p) (new_raw p + 8) _).
  assert (len d1 = len d0') as L1 by (apply (len_put d0' 8); lia).
  set (d1' := slice_assign d1 (new_raw p + 8) (new_raw p + 8 + len b) b).
  assert (len d1' = len d1) as L1'
    by (unfold d1'; apply len_slice_assign; lia).
  rewrite write_u16_ok by lia. cbn [bind].
  set (d2 := slice_assign d1' (coff_offset h + 2) _ _).
  assert (len d2 = len d1') as L2 by (apply (len_put d1' 2); lia).
  assert (exists d3, (if size_of_headers h <? new_size_of_headers p
                      then write_u32 d2 (opt_offset h + 60) (new_size_of_headers p)
                      else Ok d2) = Ok d3 /\ len d3 = len d2) as (d3 & -> & L3).
  { destruct (size_of_headers h <? new_size_of_headers p).
    - rewrite write_u32_ok by lia. eexists. split; [reflexivity|].
      apply (len_put d2 4); lia.
    - eauto. }
  cbn [bind]. rewrite write_u32_ok by lia. cbn [bind].
  set (d4 := slice_assign d3 (opt_offset h + 56) _ _).
  assert (len d4 = len d3) as L4 by (apply (len_put d3 4); lia).
  eexists. split; [reflexivity|].
  rewrite len_slice_assign; [lia | lia | reflexivity | ].
  change (len (zeros 8)) with 8. lia.
Qed.

(** Success: a well-formed image with fewer than 96 sections, room for one
    more section header and a new section that fits 32 bits is accepted. *)
Lemma run_ok (pe b : bytes) :
  well_formed pe -> num_sections (headers_of pe) < 96 ->
  header_room pe -> fits32 pe b ->
  exists out, add_bun_section pe b = Ok out.
Proof.
  intros Hwf Hn Hroom Hfit.
  pose proof (well_formed_facts pe Hwf)
    as (Fl & Fe & Fc & Fso & Ft & Ffa & Fsa & Fnb & _).
  pose proof (headers_of_offsets pe) as (He & Hco & Hop & Hcs & Hsd & Hsh & Hso & Hns).
  cbv zeta in *.
  destruct (mutate_ok pe b Hwf Hn Hroom Hfit) as (d & Hd & Ld).
  unfold add_bun_section.
  rewrite (read_headers_ok pe Fc Ft Fnb Hn). cbn [bind].
  destruct (plan_layout_cases pe (headers_of pe) b) as [[_ ->] | [Hbad _]].
  - cbn [bind]. rewrite Hd. cbn [bind].
    destruct Hfit as [_ Hfit2]. cbv zeta in Hfit2.
    pose proof (len_nonneg pe).
    apply recompute_checksum_ok; lia.
  - apply (header_room_layout pe b) in Hroom. cbv zeta in Hroom. lia.
Qed.

(** ** The output, viewed as an image *)

Lemma extend_buffer_prefix (data : bytes) (new_raw raw_size_new a c : Z) :
  0 <= a -> c <= len data -> c <= new_raw ->
  slice (extend_buffer data new_raw raw_size_new) a c = slice data a c.
Proof.
  intros Ha Hc Hr. unfold extend_buffer.
  destruct (len data <? new_raw + raw_size_new).
  - apply slice_app_left; lia.
  - apply slice_assign_before; lia.
Qed.

Lemma nth_error_section_table (d : bytes) (t : Z) (k : nat) :
  forall (i : Z) (j : nat), (j < k)%nat ->
    nth_error (section_table d t i k) j = Some (section_at d t (i + Z.of_nat j)).
Proof.
  induction k as [|k IH]; intros i j Hj; [lia|].
  destruct j as [|j]; cbn [section_table nth_error].
  - do 2 f_equal. lia.
  - rewrite IH by lia. do 2 f_equal. lia.
Qed.

Lemma length_section_table (d : bytes) (t : Z) (k : nat) (i : Z) :
  length (section_table d t i k) = k.
Proof. revert i. induction k as [|k IH]; intros i; simpl; [reflexivity | now rewrite IH]. Qed.

Lemma section_at_ext (d d' : bytes) (t i : Z) :
  (forall a c, t + i * 40 <= a -> c <= t + i * 40 + 40 -> slice d' a c = slice d a c) ->
  section_at d' t i = section_at d t i.
Proof.
  intros H. unfold section_at, u32_at, SECTION_HEADER_SIZE.
  rewrite !H by lia. reflexivity.
Qed.

Lemma section_table_ext (d d' : bytes) (t : Z) (k : nat) :
  forall i,
    (forall a c, t + i * 40 <= a -> c <= t + (i + Z.of_nat k) * 40 ->
                 slice d' a c = slice d a c) ->
    section_table d' t i k = section_table d t i k.
Proof.
  induction k as [|k IH]; intros i H; [reflexivity|].
  cbn [section_table]. f_equal.
  - apply section_at_ext. intros a c Ha Hc. apply H; lia.
  - apply IH. intros a c Ha Hc. apply H; lia.
Qed.

Lemma section_table_snoc (d : bytes) (t : Z) (k : nat) :
  forall i, section_table d t i (S k)
            = section_table d t i k ++ [section_at d t (i + Z.of_nat k)].
Proof.
  induction k as [|k IH]; intros i.
  - cbn [section_table app]. replace (i + Z.of_nat 0) with i by lia. reflexivity.
  - change (section_table d t i (S (S k)))
      with (section_at d t i :: section_table d t (i + 1) (S k)).
    rewrite IH. cbn [section_table app].
    replace (i + 1 + Z.of_nat k) with (i + Z.of_nat (S k)) by lia. reflexivity.
Qed.

(** The output of a successful run on a well-formed image, read back as an
    image: same header chain, one more section record, the new one last. *)
Lemma wf_output_view (pe b out : bytes) :
  well_formed pe ->
  add_bun_section pe b = Ok out ->
  let h := headers_of pe in
  let p := layout_of pe h b in
  let h' := headers_of out in
  let s := section_at out (section_headers_offset h) (num_sections h) in
  len pe <= len out
  /\ e_lfanew h' = e_lfanew h
  /\ size_of_optional h' = size_of_optional h
  /\ num_sections h' = num_sections h + 1
  /\ file_alignment h' = file_alignment h
  /\ section_alignment h' = section_alignment h
  /\ size_of_image h' = align_up (new_va p + payload_len p) (section_alignment h)
  /\ pe_sig_of out = PE_SIG
  /\ magic_of out = 0x20B
  /\ sections h' = sections h ++ [s]
  /\ name s = BUN_NAME
  /\ virtual_size s = payload_len p
  /\ virtual_addr s = new_va p
  /\ raw_size s = raw_size_new p
  /\ raw_ptr s = new_raw p.
Proof.
  intros Hwf Hrun.
  pose proof (wf_run pe b out Hwf Hrun)
    as (sh & Hsh' & Lout & Frame & Rsh & Rpre & Rpay & Rcnt & Rimg & Rsec).
  pose proof (add_bun_section_inv _ _ _ Hrun) as (_ & Hroom & _).
  apply header_room_layout in Hroom.
  pose proof (wf_layout pe b Hwf Hroom)
    as (Wsh & Wend & Wnh & Wfr & Wraw & Wh32 & Wpl & Wrs & Wimg & Wn & Wva).
  pose proof (well_formed_facts pe Hwf)
    as (Fl & Fe & Fc & Fso & Ft & Ffa & Fsa & Fnb & _).
  pose proof (headers_of_offsets pe) as (He & Hco & Hop & Hcs & Hsd & Hsh & Hso & Hns).
  pose proof (layout_nonneg pe b) as (Lsh & Lraw & Lrs & Lva & Lpl & _).
  pose proof (new_section_header_inv _ _ Hsh')
    as (Lsh' & Nsh & Vvs & Vva & Vrs & Vrp & _).
  destruct Fc as (_ & Fsig & Fmag & _).
  cbv zeta in *.
  set (h := headers_of pe) in *. set (p := layout_of pe h b) in *.
  pose proof (len_nonneg b) as Lb.
  (* header bytes are kept *)
  assert (forall a c, 0 <= a -> c <= new_sh_off p ->
            (c <= coff_offset h + 2 \/ coff_offset h + 4 <= a) ->
            (c <= opt_offset h + 56 \/ opt_offset h + 68 <= a) ->
            (c <= security_dd_offset h \/ security_dd_offset h + 8 <= a) ->
            slice out a c = slice pe a c) as K.
  { intros a c Ha Hc U1 U2 U3.
    rewrite Frame by (unfold untouched; lia).
    apply extend_buffer_prefix; lia. }
  assert (u32_at out 0x3C = e_lfanew h) as Ke
    by (unfold u32_at; rewrite K by lia; reflexivity).
  assert (e_lfanew (headers_of out) = e_lfanew h) as Ke' by exact Ke.
  assert (size_of_optional (headers_of out) = size_of_optional h) as Kso.
  { unfold headers_of at 1. hproj. rewrite Ke. unfold u16_at.
    rewrite K by lia. reflexivity. }
  assert (num_sections (headers_of out) = num_sections h + 1) as Kn.
  { unfold headers_of at 1. hproj. rewrite Ke. rewrite <- Rcnt. reflexivity. }
  assert (section_headers_offset (headers_of out) = section_headers_offset h) as Ksh.
  { pose proof (headers_of_offsets out) as (_ & _ & Hop' & _ & _ & Hsh'' & _).
    cbv zeta in *. lia. }
  assert (opt_offset (headers_of out) = opt_offset h) as Kop.
  { pose proof (headers_of_offsets out) as (_ & _ & Hop' & _). cbv zeta in *. lia. }
  split; [lia|]. split; [exact Ke'|]. split; [exact Kso|]. split; [exact Kn|].
  split; [|split; [|split; [|split; [|split]]]].
  - change (u32_at out (opt_offset (headers_of out) + 36) = file_alignment h).
    rewrite Kop. unfold u32_at. rewrite K by lia. reflexivity.
  - change (u32_at out (opt_offset (headers_of out) + 32) = section_alignment h).
    rewrite Kop. unfold u32_at. rewrite K by lia. reflexivity.
  - change (u32_at out (opt_offset (headers_of out) + 56)
            = align_up (new_va p + payload_len p) (section_alignment h)).
    rewrite Kop. exact Rimg.
  - unfold pe_sig_of. rewrite Ke'. rewrite K by lia. exact Fsig.
  - unfold magic_of. rewrite Kop. unfold u16_at. rewrite K by lia. exact Fmag.
  - assert (forall x y, 0 <= x -> x <= y -> y <= 40 ->
              slice out (new_sh_off p + x) (new_sh_off p + y) = slice sh x y) as Knew.
    { intros x y Hx Hxy Hy. rewrite <- Rsh. rewrite slice_slice by lia. reflexivity. }
    assert (section_headers_offset h + num_sections h * SECTION_HEADER_SIZE
            = new_sh_off p) as Eoff by (unfold SECTION_HEADER_SIZE; lia).
    split; [|repeat split].
    + change (sections (headers_of out))
        with (section_table out (section_headers_offset (headers_of out)) 0
                (Z.to_nat (num_sections (headers_of out)))).
      change (sections h)
        with (section_table pe (section_headers_offset h) 0
                (Z.to_nat (num_sections h))).
      rewrite Ksh, Kn.
      replace (Z.to_nat (num_sections h + 1)) with (S (Z.to_nat (num_sections h)))
        by lia.
      rewrite section_table_snoc. f_equal.
      * apply section_table_ext. intros a c Ha Hc. apply K; lia.
      * do 2 f_equal. lia.
    + cbn [section_at name]. rewrite Eoff.
      replace (new_sh_off p) with (new_sh_off p + 0) at 1 by lia.
      rewrite Knew by lia. exact Nsh.
    + cbn [section_at virtual_size]. rewrite Eoff. unfold u32_at.
      replace (new_sh_off p + 8 + 4) with (new_sh_off p + 12) by lia.
      rewrite Knew by lia. exact Vvs.
    + cbn [section_at virtual_addr]. rewrite Eoff. unfold u32_at.
      replace (new_sh_off p + 12 + 4) with (new_sh_off p + 16) by lia.
      rewrite Knew by lia. exact Vva.
    + cbn [section_at raw_size]. rewrite Eoff. unfold u32_at.
      replace (new_sh_off p + 16 + 4) with (new_sh_off p + 20) by lia.
      rewrite Knew by lia. exact Vrs.
    + cbn [section_at raw_ptr]. rewrite Eoff. unfold u32_at.
      replace (new_sh_off p + 20 + 4) with (new_sh_off p + 24) by lia.
      rewrite Knew by lia. exact Vrp.
Qed.

(** ** The properties of the specification *)

Lemma header_room_dec (pe : bytes) :
  (let h := headers_of pe in
   align_up (section_headers_offset h + (num_sections h + 1) * 40) (file_alignment h)
   <=? first_raw_of pe (sections h)) = true ->
  header_room pe.
Proof. unfold header_room. cbv zeta. intros H. now apply Z.leb_le. Qed.

Lemma fits32_dec (pe b : bytes) :
  (let h := headers_of pe in
   let p := layout_of pe h b in
   (align_up (new_va p + payload_len p) (section_alignment h) <? 2 ^ 32)
   && (Z.max (len pe) (new_raw p + raw_size_new p) + 0xFFFF <? 2 ^ 32)) = true ->
  fits32 pe b.
Proof.
  unfold fits32. cbv zeta. intros H. apply andb_true_iff in H as [H1 H2].
  split; now apply Z.ltb_lt.
Qed.

Lemma well_formed_split (pe : bytes) :
  well_formed_headers pe -> has_raw_data pe -> well_formed pe.
Proof.
  unfold well_formed_headers, has_raw_data, well_formed. intros H1 H2.
  change (well_formedb pe)
    with (well_formed_headersb pe
          && existsb (fun s => raw_size s >? 0) (sections (headers_of pe))).
  now rewrite H1, H2.
Qed.

(** C1 (as amended): for every 64-bit image with well-formed headers, at
    least one section that has raw data, fewer than 96 sections and room for
    one more section header, and every payload whose section fits the 32-bit
    fields, [add_bun_section] returns a buffer whose section count is the
    input's plus one, whose section table is the input's followed by one
    record named [.bun], and whose bytes at that record's raw pointer are the
    8-byte little-endian payload length followed by the payload. *)
Theorem add_bun_section_round_trip (pe bundle : bytes) :
  well_formed_headers pe ->
  has_raw_data pe ->
  num_sections (headers_of pe) < 96 ->
  header_room pe ->
  fits32 pe bundle ->
  exists out s,
    add_bun_section pe bundle = Ok out
    /\ num_sections (headers_of out) = num_sections (headers_of pe) + 1
    /\ sections (headers_of out) = sections (headers_of pe) ++ [s]
    /\ name s = BUN_NAME
    /\ slice out (raw_ptr s) (raw_ptr s + 8 + len bundle)
       = le_encode 8 (len bundle) ++ bundle.
Proof.
  intros Hwh Hraw Hn Hroom Hfit.
  pose proof (well_formed_split pe Hwh Hraw) as Hwf.
  destruct (run_ok pe bundle Hwf Hn Hroom Hfit) as [out Hrun].
  pose proof (wf_run pe bundle out Hwf Hrun)
    as (sh & _ & _ & _ & _ & Rpre & Rpay & _).
  pose proof (wf_output_view pe bundle out Hwf Hrun)
    as (_ & _ & _ & Kn & _ & _ & _ & _ & _ & Ksec & Kname & _ & _ & _ & Kraw).
  pose proof (layout_nonneg pe bundle) as (_ & Lraw & _).
  cbv zeta in *.
  eexists out, _. split; [exact Hrun|]. split; [exact Kn|].
  split; [exact Ksec|]. split; [exact Kname|].
  rewrite Kraw. pose proof (len_nonneg bundle).
  rewrite (slice_split out _ (new_raw (layout_of pe (headers_of pe) bundle) + 8)) by lia.
  now rewrite Rpre, Rpay.
Qed.

Lemma add_bun_section_round_trip_witness :
  well_formed_headers img1 /\ has_raw_data img1
  /\ num_sections (headers_of img1) < 96
  /\ header_room img1 /\ fits32 img1 payload3
  /\ exists out s,
       add_bun_section img1 payload3 = Ok out
       /\ num_sections (headers_of out) = num_sections (headers_of img1) + 1
       /\ sections (headers_of out) = sections (headers_of img1) ++ [s]
       /\ name s = BUN_NAME
       /\ slice out (raw_ptr s) (raw_ptr s + 8 + len payload3)
          = le_encode 8 (len payload3) ++ payload3.
Proof.
  assert (well_formed_headers img1) as H0 by (vm_compute; reflexivity).
  assert (has_raw_data img1) as H1 by (vm_compute; reflexivity).
  assert (num_sections (headers_of img1) < 96) as H2 by (vm_compute; reflexivity).
  assert (header_room img1) as H3 by (apply header_room_dec; vm_compute; reflexivity).
  assert (fits32 img1 payload3) as H4 by (apply fits32_dec; vm_compute; reflexivity).
  repeat (split; [assumption|]).
  exact (add_bun_section_round_trip img1 payload3 H0 H1 H2 H3 H4).
Defined.

(** C1 (as stated) fails: [img_full_table] is a well-formed image, meeting
    every invariant of the data model, whose section table has no room for a
    fourth record; the header-space assertion rejects it and no buffer is
    returned. *)
Lemma add_bun_section_no_room :
  well_formed img_full_table
  /\ spec_invariantsb img_full_table = true
  /\ add_bun_section img_full_table payload3 = Err InsufficientHeaderSpace.
Proof. repeat split; vm_compute; reflexivity. Qed.

Lemma recompute_checksum_matches_spec_witness :
  0 <= 216 /\ 216 + 4 <= len img1 /\ len img1 + 0xFFFF < 2 ^ 32
  /\ exists out,
       recompute_checksum img1 216 = Ok out
       /\ read_u32 out 216 = Ok (spec_image_checksum img1 216)
       /\ spec_image_checksum out 216 = u32_at out 216.
Proof.
  assert (0 <= 216) as H1 by lia.
  assert (216 + 4 <= len img1) as H2 by (vm_compute; discriminate).
  assert (len img1 + 0xFFFF < 2 ^ 32) as H3 by (vm_compute; reflexivity).
  repeat (split; [assumption|]).
  exact (recompute_checksum_matches_spec img1 216 H1 H2 H3).
Defined.

Lemma layout_planner_formulas_witness :
  let h := headers_of img1 in
  let p := layout_of img1 h payload3 in
  read_headers img1 = Ok h
  /\ plan_layout img1 h payload3 = Ok p
  /\ power_of_two (file_alignment h)
  /\ power_of_two (section_alignment h)
  /\ rounds_up (raw_size_new p) (len payload3 + 8) (file_alignment h)
  /\ (exists m,
         is_max_of m (map (fun s => raw_ptr s + raw_size s) (sections h)) 0
         /\ rounds_up (new_raw p) m (file_alignment h))
  /\ (exists (ext : section -> Z) m,
         (forall s, rounds_up (ext s) (Z.max (virtual_size s) (raw_size s))
                      (section_alignment h))
         /\ is_max_of m (map (fun s => virtual_addr s + ext s) (sections h)) 0
         /\ rounds_up (new_va p) m (section_alignment h)).
Proof.
  intros h p.
  assert (read_headers img1 = Ok h) as H1 by (vm_compute; reflexivity).
  assert (plan_layout img1 h payload3 = Ok p) as H2 by (vm_compute; reflexivity).
  assert (power_of_two (file_alignment h)) as H3
    by (apply is_pow2_spec; vm_compute; reflexivity).
  assert (power_of_two (section_alignment h)) as H4
    by (apply is_pow2_spec; vm_compute; reflexivity).
  repeat (split; [assumption|]).
  exact (layout_planner_formulas img1 payload3 h p H1 H2 H3 H4).
Defined.

(** The [size_of_image] field, at the input's optional-header offset, after
    any successful run. *)
Lemma run_size_of_image (pe b out : bytes) :
  add_bun_section pe b = Ok out ->
  let h := headers_of pe in
  let p := layout_of pe h b in
  u32_at out (opt_offset h + 56)
  = align_up (new_va p + payload_len p) (section_alignment h).
Proof.
  intros Hrun h p.
  pose proof (add_bun_section_inv _ _ _ Hrun) as (_ & _ & d & Hm & Hck).
  pose proof (headers_of_offsets pe) as (He & Hco & Hop & Hcs & Hsd & _).
  cbv zeta in *. fold h in He, Hco, Hop, Hcs, Hsd, Hm, Hck. fold p in Hm.
  destruct Hm as [sh d1 d2 d3 d4 _ _ _ _ H4 Hd].
  apply recompute_checksum_inv in Hck as (d' & Hc1 & Hc2).
  unfold write_u32 in *.
  pose proof (pack_into_len _ _ _ _ _ H4) as L4.
  pose proof (pack_into_inv _ _ _ _ _ H4) as (V4 & _ & B4 & _).
  change (Z.of_nat 4) with 4 in B4.
  unfold u32_at.
  rewrite (pack_into_other _ _ _ _ _ _ _ Hc2), (pack_into_other _ _ _ _ _ _ _ Hc1)
    by lia.
  rewrite Hd, slice_assign_before by lia.
  pose proof (pack_into_same _ _ _ _ _ H4) as X.
  change (Z.of_nat 4) with 4 in X. rewrite X.
  now apply le_decode_encode_small.
Qed.

(** C4 (as amended): for every input whose section alignment is a power of
    two and every payload on which [add_bun_section] succeeds, the
    [size_of_image] field written to the output (at the input's
    optional-header offset plus 56) is the new section's virtual address
    plus the prefixed payload length rounded up to the section alignment,
    hence a multiple of the section alignment; and it is at least the
    input's [size_of_image] whenever that value does not exceed the virtual
    end of the existing sections as the planner measures it, rounded up to
    the section alignment. *)
Theorem size_of_image_monotonic (pe bundle out : bytes) :
  add_bun_section pe bundle = Ok out ->
  let h := headers_of pe in
  let p := layout_of pe h bundle in
  power_of_two (section_alignment h) ->
  rounds_up (u32_at out (opt_offset h + 56)) (new_va p + (len bundle + 8))
    (section_alignment h)
  /\ u32_at out (opt_offset h + 56) mod section_alignment h = 0
  /\ (size_of_image h
      <= align_up (last_va_end_of (section_alignment h) (sections h))
           (section_alignment h) ->
      size_of_image h <= u32_at out (opt_offset h + 56)).
Proof.
  intros Hrun h p Hsa.
  pose proof (run_size_of_image pe bundle out Hrun) as E.
  cbv zeta in E. fold h p in E. rewrite E.
  assert (payload_len p = len bundle + 8) as Epl by reflexivity.
  assert (new_va p = align_up (last_va_end_of (section_alignment h) (sections h))
                       (section_alignment h)) as Eva by reflexivity.
  pose proof (align_up_ge (new_va p + payload_len p) _ Hsa) as Hge.
  pose proof (len_nonneg bundle).
  split; [|split].
  - rewrite Epl. now apply align_up_rounds_up.
  - now apply align_up_multiple.
  - intros Htight. lia.
Qed.

Lemma size_of_image_monotonic_witness :
  let out := out_of (add_bun_section img_slack payload3) in
  let h := headers_of img_slack in
  let p := layout_of img_slack h payload3 in
  let out1 := out_of (add_bun_section img1 payload3) in
  let h1 := headers_of img1 in
  add_bun_section img_slack payload3 = Ok out
  /\ power_of_two (section_alignment h)
  /\ rounds_up (u32_at out (opt_offset h + 56)) (new_va p + (len payload3 + 8))
       (section_alignment h)
  /\ u32_at out (opt_offset h + 56) mod section_alignment h = 0
  /\ add_bun_section img1 payload3 = Ok out1
  /\ power_of_two (section_alignment h1)
  /\ size_of_image h1
     <= align_up (last_va_end_of (section_alignment h1) (sections h1))
          (section_alignment h1)
  /\ size_of_image h1 <= u32_at out1 (opt_offset h1 + 56).
Proof.
  intros out h p out1 h1.
  assert (add_bun_section img_slack payload3 = Ok out) as H1
    by (vm_compute; reflexivity).
  assert (power_of_two (section_alignment h)) as H2
    by (apply is_pow2_spec; vm_compute; reflexivity).
  assert (add_bun_section img1 payload3 = Ok out1) as H3 by (vm_compute; reflexivity).
  assert (power_of_two (section_alignment h1)) as H4
    by (apply is_pow2_spec; vm_compute; reflexivity).
  assert (size_of_image h1
          <= align_up (last_va_end_of (section_alignment h1) (sections h1))
               (section_alignment h1)) as H5 by (vm_compute; discriminate).
  destruct (size_of_image_monotonic img_slack payload3 out H1 H2) as (R1 & R2 & _).
  destruct (size_of_image_monotonic img1 payload3 out1 H3 H4) as (_ & _ & R3).
  repeat (split; [assumption|]).
  exact (R3 H5).
Defined.

(** C4 (as stated) fails: [img_slack] is well-formed and its [size_of_image]
    (0x10000) covers its one section with room to spare; the run succeeds and
    stores 0x3000, a smaller value. *)
Lemma size_of_image_can_shrink :
  well_formed img_slack
  /\ spec_invariantsb img_slack = true
  /\ exists out,
       add_bun_section img_slack payload3 = Ok out
       /\ size_of_image (headers_of out) < size_of_image (headers_of img_slack).
Proof.
  split; [vm_compute; reflexivity|]. split; [vm_compute; reflexivity|].
  exists (out_of (add_bun_section img_slack payload3)).
  split; vm_compute; reflexivity.
Qed.

Lemma well_formed_headers_facts (pe : bytes) :
  well_formed_headers pe ->
  let h := headers_of pe in
  chain_ok pe
  /\ section_headers_offset h + 40 * num_sections h <= len pe
  /\ Forall (fun s => name s <> BUN_NAME) (sections h).
Proof.
  unfold well_formed_headers, well_formed_headersb. cbv zeta. intros H.
  repeat (apply andb_true_iff in H as [H ?]).
  repeat match goal with
         | X : (_ <=? _) = true |- _ => apply Z.leb_le in X
         | X : (_ =? _) = true |- _ => apply Z.eqb_eq in X
         | X : bytes_eqb _ _ = true |- _ => apply bytes_eqb_true in X
         end.
  pose proof (headers_of_offsets pe) as (He & Hco & Hop & Hcs & Hsd & Hsh & Hso & Hns).
  cbv zeta in *.
  split; [|split].
  - unfold chain_ok. repeat split; try assumption; lia.
  - assumption.
  - apply Forall_forall. intros s Hs.
    match goal with X : forallb _ _ = true |- _ =>
      rewrite forallb_forall in X; specialize (X s Hs);
      apply negb_true_iff in X end.
    intros Hn. apply bytes_eqb_true in Hn. congruence.
Qed.

(** C5 (as amended): for every 64-bit image with well-formed headers: with
    95 sections of which at least one has raw data, room for one more section
    header and a new section that fits the 32-bit fields, the run succeeds
    and the output has 96 sections; with 96 sections or more it fails with
    [SectionLimitExceeded], so no buffer is returned. *)
Theorem section_ceiling_boundary (pe bundle : bytes) :
  well_formed_headers pe ->
  (num_sections (headers_of pe) = 95 ->
   has_raw_data pe -> header_room pe -> fits32 pe bundle ->
   exists out, add_bun_section pe bundle = Ok out
               /\ num_sections (headers_of out) = 96)
  /\ (96 <= num_sections (headers_of pe) ->
      add_bun_section pe bundle = Err SectionLimitExceeded).
Proof.
  intros Hwh. split.
  - intros Hn Hraw Hroom Hfit.
    pose proof (well_formed_split pe Hwh Hraw) as Hwf.
    destruct (run_ok pe bundle Hwf ltac:(lia) Hroom Hfit) as [out Hrun].
    exists out. split; [exact Hrun|].
    pose proof (wf_output_view pe bundle out Hwf Hrun) as (_ & _ & _ & Kn & _).
    cbv zeta in Kn. lia.
  - intros Hn.
    pose proof (well_formed_headers_facts pe Hwh) as (Fc & Ft & Fnb).
    cbv zeta in *. unfold add_bun_section.
    now rewrite (read_headers_limit pe Fc Ft Fnb Hn).
Qed.

Lemma section_ceiling_boundary_witness :
  well_formed_headers img95
  /\ num_sections (headers_of img95) = 95
  /\ has_raw_data img95
  /\ header_room img95 /\ fits32 img95 payload3
  /\ (exists out, add_bun_section img95 payload3 = Ok out
                  /\ num_sections (headers_of out) = 96)
  /\ well_formed_headers img96
  /\ 96 <= num_sections (headers_of img96)
  /\ add_bun_section img96 payload3 = Err SectionLimitExceeded.
Proof.
  assert (well_formed_headers img95) as H1 by (vm_compute; reflexivity).
  assert (num_sections (headers_of img95) = 95) as H2 by (vm_compute; reflexivity).
  assert (has_raw_data img95) as H2' by (vm_compute; reflexivity).
  assert (header_room img95) as H3 by (apply header_room_dec; vm_compute; reflexivity).
  assert (fits32 img95 payload3) as H4 by (apply fits32_dec; vm_compute; reflexivity).
  assert (well_formed_headers img96) as H5 by (vm_compute; reflexivity).
  assert (96 <= num_sections (headers_of img96)) as H6 by (vm_compute; discriminate).
  split; [exact H1|]. split; [exact H2|]. split; [exact H2'|].
  split; [exact H3|]. split; [exact H4|].
  split; [exact (proj1 (section_ceiling_boundary img95 payload3 H1) H2 H2' H3 H4)|].
  split; [exact H5|]. split; [exact H6|].
  exact (proj2 (section_ceiling_boundary img96 payload3 H5) H6).
Defined.

(** C5 (as stated) fails on its success half: [img95_full] is a well-formed
    image with 95 sections, meeting every invariant of the data model, whose
    section table has no room for a 96th record; the header-space assertion
    rejects it. *)
Lemma section_ceiling_no_room :
  well_formed img95_full
  /\ spec_invariantsb img95_full = true
  /\ num_sections (headers_of img95_full) = 95
  /\ add_bun_section img95_full payload3 = Err InsufficientHeaderSpace.
Proof. repeat split; vm_compute; reflexivity. Qed.

(** C6 (as amended): for every input on which [add_bun_section] succeeds, the
    section count stored in the output (the COFF field at the input's header
    offset) is the input's count plus one and never exceeds 96. *)
Theorem section_count_at_most_96 (pe bundle out : bytes) :
  add_bun_section pe bundle = Ok out ->
  let h := headers_of pe in
  u16_at out (coff_offset h + 2) = num_sections h + 1
  /\ u16_at out (coff_offset h + 2) <= 96.
Proof.
  intros Hrun h.
  pose proof (add_bun_section_inv _ _ _ Hrun) as (Hread & _ & d & Hm & Hck).
  pose proof (read_headers_inv _ _ Hread) as (_ & _ & H96 & _).
  pose proof (run_frame pe bundle d out Hm Hck)
    as (d2 & _ & _ & B2 & R2 & _ & F & _).
  pose proof (headers_of_offsets pe) as (He & Hco & Hop & _).
  cbv zeta in *. fold h in H96, B2, R2, F, He, Hco, Hop.
  assert (u16_at out (coff_offset h + 2) = num_sections h + 1) as E.
  { unfold u16_at in *. rewrite F by lia. exact R2. }
  split; [exact E | lia].
Qed.

Lemma section_count_at_most_96_witness :
  let out := out_of (add_bun_section img95 payload3) in
  let h := headers_of img95 in
  add_bun_section img95 payload3 = Ok out
  /\ u16_at out (coff_offset h + 2) = num_sections h + 1
  /\ u16_at out (coff_offset h + 2) <= 96.
Proof.
  intros out h.
  assert (add_bun_section img95 payload3 = Ok out) as H1 by (vm_compute; reflexivity).
  split; [assumption|].
  exact (section_count_at_most_96 img95 payload3 out H1).
Defined.

(** C6 (as stated) fails: the run on [img95], which has 95 sections,
    succeeds, and the output has 96 sections: the count reaches 96. *)
Lemma section_count_reaches_96 :
  ~ (forall out, add_bun_section img95 payload3 = Ok out ->
                 num_sections (headers_of out) < 96).
Proof.
  intros H.
  specialize (H (out_of (add_bun_section img95 payload3)) ltac:(vm_compute; reflexivity)).
  vm_compute in H. discriminate H.
Qed.

(** C7 fails on the code: [img_bss_only] meets every invariant of the data
    model, has header room and takes the payload within 32 bits, but none of
    its sections has raw data.  The planner's [max(..., default=0)] over the
    raw ends then gives [new_raw = 0] (lines 80 and 90), although line 75
    treats the whole file as header area in that very case: the run succeeds,
    writes the length prefix and the payload over the DOS header at offset 0,
    and a second run on the output stops at the signature assertion
    ([FormatError]), not at the duplicate-name check. *)
Lemma second_run_after_header_wipe :
  let out := out_of (add_bun_section img_bss_only payload3) in
  well_formed_headers img_bss_only
  /\ spec_invariantsb img_bss_only = true
  /\ header_room img_bss_only
  /\ fits32 img_bss_only payload3
  /\ new_raw (layout_of img_bss_only (headers_of img_bss_only) payload3) = 0
  /\ add_bun_section img_bss_only payload3 = Ok out
  /\ slice out 0 11 = le_encode 8 (len payload3) ++ payload3
  /\ add_bun_section out payload3 = Err FormatError.
Proof.
  intros out.
  split; [vm_compute; reflexivity|].
  split; [vm_compute; reflexivity|].
  split; [apply header_room_dec; vm_compute; reflexivity|].
  split; [apply fits32_dec; vm_compute; reflexivity|].
  split; [vm_compute; reflexivity|].
  split; [vm_compute; reflexivity|].
  split; vm_compute; reflexivity.
Qed.

(** X28: where the header survives, the guard works: for every 64-bit image
    with well-formed headers and at least one section that has raw data, a
    second run on the output of a successful run, whatever its payload, fails
    with [DuplicateSection]. *)
Theorem second_run_rejected (pe bundle out bundle' : bytes) :
  well_formed_headers pe ->
  has_raw_data pe ->
  add_bun_section pe bundle = Ok out ->
  add_bun_section out bundle' = Err DuplicateSection.
Proof.
  intros Hwh Hraw Hrun.
  pose proof (well_formed_split pe Hwh Hraw) as Hwf.
  pose proof (wf_output_view pe bundle out Hwf Hrun)
    as (Klen & Ke & Kso & Kn & _ & _ & _ & Ksig & Kmag & Ksec & Kname & _).
  pose proof (wf_run pe bundle out Hwf Hrun) as (_ & _ & Lout & _).
  pose proof (add_bun_section_inv _ _ _ Hrun) as (_ & Hroom & _).
  apply header_room_layout in Hroom.
  pose proof (wf_layout pe bundle Hwf Hroom)
    as (Wsh & Wend & Wnh & Wfr & Wraw & _).
  pose proof (well_formed_facts pe Hwf) as (Fl & _ & Fc & Fso & Ft & _).
  pose proof (headers_of_offsets pe) as (He & Hco & Hop & _ & _ & Hsh & _).
  pose proof (headers_of_offsets out) as (He' & Hco' & Hop' & _ & _ & Hsh' & _).
  pose proof (layout_nonneg pe bundle) as (_ & _ & Lrs & _).
  cbv zeta in *.
  assert (chain_ok out) as Hc.
  { destruct Fc as (_ & _ & _ & Fo).
    unfold chain_ok. repeat split; try assumption; lia. }
  unfold add_bun_section. rewrite (read_headers_dup out Hc); [reflexivity | lia |].
  rewrite Ksec. apply Exists_app. right. constructor. exact Kname.
Qed.

Lemma second_run_rejected_witness :
  let out := out_of (add_bun_section img1 payload3) in
  well_formed_headers img1
  /\ has_raw_data img1
  /\ add_bun_section img1 payload3 = Ok out
  /\ add_bun_section out [x09] = Err DuplicateSection.
Proof.
  intros out.
  assert (well_formed_headers img1) as H1 by (vm_compute; reflexivity).
  assert (has_raw_data img1) as H1' by (vm_compute; reflexivity).
  assert (add_bun_section img1 payload3 = Ok out) as H2 by (vm_compute; reflexivity).
  split; [exact H1|]. split; [exact H1'|]. split; [exact H2|].
  exact (second_run_rejected img1 payload3 out [x09] H1 H1' H2).
Defined.

(** C9: for every input that holds the security data-directory entry and on
    which [add_bun_section] succeeds, the 8 bytes of that entry (address and
    size) are zero in the output, whatever they were in the input. *)
Theorem security_directory_zeroed (pe bundle out : bytes) :
  add_bun_section pe bundle = Ok out ->
  let h := headers_of pe in
  security_dd_offset h + 8 <= len pe ->
  slice out (security_dd_offset h) (security_dd_offset h + 8) = zeros 8.
Proof.
  intros Hrun h Hin.
  pose proof (add_bun_section_inv _ _ _ Hrun) as (_ & _ & d & Hm & Hck).
  pose proof (run_frame pe bundle d out Hm Hck) as (d2 & L2 & _ & _ & _ & _ & _ & S).
  cbv zeta in *. fold h in S. apply S. lia.
Qed.

Lemma security_directory_zeroed_witness :
  let out := out_of (add_bun_section img1 payload3) in
  let h := headers_of img1 in
  add_bun_section img1 payload3 = Ok out
  /\ security_dd_offset h + 8 <= len img1
  /\ slice img1 (security_dd_offset h) (security_dd_offset h + 8) <> zeros 8
  /\ slice out (security_dd_offset h) (security_dd_offset h + 8) = zeros 8.
Proof.
  intros out h.
  assert (add_bun_section img1 payload3 = Ok out) as H1 by (vm_compute; reflexivity).
  assert (security_dd_offset h + 8 <= len img1) as H2 by (vm_compute; discriminate).
  repeat (split; [assumption|]).
  split; [vm_compute; discriminate|].
  exact (security_directory_zeroed img1 payload3 out H1 H2).
Defined.

Lemma is_min_of_unique (m m' : Z) (xs : list Z) (d : Z) :
  is_min_of m xs d -> is_min_of m' xs d -> m = m'.
Proof.
  intros [[E ->] | [Hi Hm]] [[E' ->] | [Hi' Hm']]; subst; try easy.
  specialize (Hm _ Hi'). specialize (Hm' _ Hi). lia.
Qed.

(** C8: for every parsed input whose file alignment is a power of two (the
    data model's precondition): the run fails with [InsufficientHeaderSpace]
    exactly when the table of [num_sections + 1] records, rounded up to the
    file alignment, ends beyond the least raw pointer of the sections that
    have raw data (the file length when none has); and when the run succeeds
    on a well-formed image, every byte of every existing section's raw data
    is unchanged in the output. *)
Theorem header_capacity_check (pe bundle : bytes) (h : headers) :
  read_headers pe = Ok h ->
  power_of_two (file_alignment h) ->
  (forall r fr,
      rounds_up r (section_headers_offset h + (num_sections h + 1) * 40)
        (file_alignment h) ->
      is_min_of fr (map raw_ptr (filter (fun s => raw_size s >? 0) (sections h)))
        (len pe) ->
      (add_bun_section pe bundle = Err InsufficientHeaderSpace <-> fr < r))
  /\ (well_formed pe ->
      forall out, add_bun_section pe bundle = Ok out ->
      forall s a c, In s (sections h) ->
        raw_ptr s <= a -> c <= raw_ptr s + raw_size s -> c <= len pe ->
        slice out a c = slice pe a c).
Proof.
  intros Hread Hfa.
  pose proof (read_headers_inv _ _ Hread) as (-> & _).
  split.
  - intros r fr Hr Hfr.
    assert (fr = first_raw_of pe (sections (headers_of pe))) as ->
      by (eapply is_min_of_unique; [exact Hfr | apply min_default_spec]).
    assert (r = align_up (section_headers_offset (headers_of pe)
                          + (num_sections (headers_of pe) + 1) * 40)
                  (file_alignment (headers_of pe))) as ->.
    { eapply rounds_up_unique; [apply power_of_two_pos; exact Hfa | exact Hr |].
      now apply align_up_rounds_up. }
    unfold add_bun_section. rewrite Hread. cbn [bind].
    destruct (plan_layout_cases pe (headers_of pe) bundle) as [[Hok ->] | [Hbad ->]];
      cbn [bind]; apply (header_room_layout pe bundle) in Hok || idtac.
    + unfold header_room in Hok. cbv zeta in Hok. split; [|lia].
      intros H.
      destruct (mutate pe (headers_of pe) (layout_of pe (headers_of pe) bundle) bundle)
        as [d|e] eqn:Em; cbn [bind] in H.
      * apply recompute_checksum_err in H. discriminate H.
      * apply mutate_err in Em. congruence.
    + split; [intros _ | reflexivity].
      pose proof (header_room_layout pe bundle) as Hiff. cbv zeta in Hiff.
      unfold header_room in Hiff. cbv zeta in Hiff. lia.
  - intros Hwf out Hrun s a c Hs Ha Hc Hl.
    destruct (Z.le_gt_cases c a) as [Hca | Hca].
    { unfold slice. replace (Z.to_nat (c - a)) with 0%nat by lia. reflexivity. }
    pose proof (wf_run pe bundle out Hwf Hrun) as (_ & _ & _ & Frame & _).
    pose proof (add_bun_section_inv _ _ _ Hrun) as (_ & Hroom & _).
    pose proof Hroom as Hroom'. apply header_room_layout in Hroom'.
    pose proof (wf_layout pe bundle Hwf Hroom')
      as (Wsh & Wend & Wnh & Wfr & Wraw & _).
    pose proof (well_formed_facts pe Hwf) as (_ & Fe & _ & Fso & _ & Ffa & _).
    pose proof (headers_of_offsets pe) as (He & Hco & Hop & _ & Hsd & Hsh & Hso & Hns).
    pose proof (sections_fields pe s Hs) as (_ & _ & Srs & Srp).
    pose proof (first_raw_le pe _ s Hs ltac:(lia)) as Hfirst.
    pose proof (last_file_end_ge _ s Hs) as Hlast.
    pose proof (align_up_ge (last_file_end_of (sections (headers_of pe))) _ Ffa) as Hal.
    cbv zeta in *.
    set (h := headers_of pe) in *. set (p := layout_of pe h bundle) in *.
    assert (first_raw p = first_raw_of pe (sections h)) as E1 by reflexivity.
    assert (new_raw p = align_up (last_file_end_of (sections h)) (file_alignment h))
      as E2 by reflexivity.
    rewrite Frame by (unfold untouched; lia).
    apply extend_buffer_prefix; lia.
Qed.

Lemma header_capacity_check_witness :
  let h := headers_of img_full_table in
  let h1 := headers_of img1 in
  let out := out_of (add_bun_section img1 payload3) in
  read_headers img_full_table = Ok h
  /\ power_of_two (file_alignment h)
  /\ rounds_up 1024 (section_headers_offset h + (num_sections h + 1) * 40)
       (file_alignment h)
  /\ is_min_of 512 (map raw_ptr (filter (fun s => raw_size s >? 0) (sections h)))
       (len img_full_table)
  /\ (add_bun_section img_full_table payload3 = Err InsufficientHeaderSpace
      <-> 512 < 1024)
  /\ read_headers img1 = Ok h1
  /\ power_of_two (file_alignment h1)
  /\ well_formed img1
  /\ add_bun_section img1 payload3 = Ok out
  /\ slice out 512 1024 = slice img1 512 1024.
Proof.
  intros h h1 out.
  assert (read_headers img_full_table = Ok h) as H1 by (vm_compute; reflexivity).
  assert (power_of_two (file_alignment h)) as H2
    by (apply is_pow2_spec; vm_compute; reflexivity).
  assert (rounds_up 1024 (section_headers_offset h + (num_sections h + 1) * 40)
            (file_alignment h)) as H3.
  { split; [exists 2; vm_compute; reflexivity|].
    split; vm_compute; [discriminate | reflexivity]. }
  assert (is_min_of 512 (map raw_ptr (filter (fun s => raw_size s >? 0) (sections h)))
            (len img_full_table)) as H4.
  { right. split; [vm_compute; auto|].
    intros x Hx. vm_compute in Hx.
    destruct Hx as [<- | [<- | [<- | []]]]; lia. }
  assert (read_headers img1 = Ok h1) as H5 by (vm_compute; reflexivity).
  assert (power_of_two (file_alignment h1)) as H6
    by (apply is_pow2_spec; vm_compute; reflexivity).
  assert (well_formed img1) as H7 by (vm_compute; reflexivity).
  assert (add_bun_section img1 payload3 = Ok out) as H8 by (vm_compute; reflexivity).
  repeat (split; [assumption|]).
  split;
    [exact (proj1 (header_capacity_check img_full_table payload3 h H1 H2) 1024 512 H3 H4)|].
  repeat (split; [assumption|]).
  apply (proj2 (header_capacity_check img1 payload3 h1 H5 H6) H7 out H8
           (section_at img1 (section_headers_offset h1) 0)).
  - vm_compute. left. reflexivity.
  - vm_compute. discriminate.
  - vm_compute. discriminate.
  - vm_compute. discriminate.
Defined.

(** C10: for every well-formed image and payload on which [add_bun_section]
    succeeds, with [L] the input length and [nfs] the new raw pointer plus
    the aligned raw size: the output is [max(L, nfs)] bytes long; when
    [new_raw + payload_len < L < nfs], the output's bytes from
    [new_raw + payload_len] to [L] are the input's (not zeros); the new raw
    region is zero-filled before the payload is written when [L >= nfs],
    whereas for [L < nfs] the buffer is only extended with zeros, its
    existing bytes kept. *)
Theorem output_length_and_padding (pe bundle out : bytes) :
  well_formed pe ->
  add_bun_section pe bundle = Ok out ->
  let p := layout_of pe (headers_of pe) bundle in
  let nfs := new_raw p + raw_size_new p in
  len out = Z.max (len pe) nfs
  /\ (new_raw p + payload_len p < len pe -> len pe < nfs ->
      slice out (new_raw p + payload_len p) (len pe)
      = slice pe (new_raw p + payload_len p) (len pe))
  /\ (nfs <= len pe ->
      slice (extend_buffer pe (new_raw p) (raw_size_new p)) (new_raw p) nfs
      = zeros (raw_size_new p))
  /\ (len pe < nfs ->
      extend_buffer pe (new_raw p) (raw_size_new p) = pe ++ zeros (nfs - len pe)).
Proof.
  intros Hwf Hrun.
  pose proof (wf_run pe bundle out Hwf Hrun) as (_ & _ & Lout & Frame & _).
  pose proof (add_bun_section_inv _ _ _ Hrun) as (_ & Hroom & _).
  apply header_room_layout in Hroom.
  pose proof (wf_layout pe bundle Hwf Hroom)
    as (Wsh & Wend & Wnh & Wfr & Wraw & _ & Wpl & _).
  pose proof (well_formed_facts pe Hwf) as (_ & Fe & _ & Fso & _).
  pose proof (headers_of_offsets pe) as (He & Hco & Hop & _ & Hsd & Hsh & Hso & Hns).
  pose proof (layout_nonneg pe bundle) as (Lsh & Lraw & Lrs & _).
  cbv zeta in *.
  set (h := headers_of pe) in *. set (p := layout_of pe h bundle) in *.
  pose proof (len_nonneg bundle) as Lb.
  split; [exact Lout|]. split; [|split].
  - intros H1 H2. rewrite Frame by (unfold untouched; lia).
    unfold extend_buffer.
    assert ((len pe <? new_raw p + raw_size_new p) = true) as -> by now apply Z.ltb_lt.
    apply slice_app_left; lia.
  - intros H. unfold extend_buffer.
    assert ((len pe <? new_raw p + raw_size_new p) = false) as -> by now apply Z.ltb_ge.
    replace (new_raw p + raw_size_new p)
      with (new_raw p + len (zeros (raw_size_new p))) at 2
      by (rewrite len_zeros; lia).
    apply slice_assign_same; lia.
  - intros H. unfold extend_buffer.
    assert ((len pe <? new_raw p + raw_size_new p) = true) as -> by now apply Z.ltb_lt.
    reflexivity.
Qed.

Lemma output_length_and_padding_witness :
  let out := out_of (add_bun_section img_overlay payload3) in
  let p := layout_of img_overlay (headers_of img_overlay) payload3 in
  let nfs := new_raw p + raw_size_new p in
  well_formed img_overlay
  /\ add_bun_section img_overlay payload3 = Ok out
  /\ new_raw p + payload_len p < len img_overlay
  /\ len img_overlay < nfs
  /\ len out = Z.max (len img_overlay) nfs
  /\ slice out (new_raw p + payload_len p) (len img_overlay)
     = slice img_overlay (new_raw p + payload_len p) (len img_overlay)
  /\ extend_buffer img_overlay (new_raw p) (raw_size_new p)
     = img_overlay ++ zeros (nfs - len img_overlay).
Proof.
  intros out p nfs.
  assert (well_formed img_overlay) as H1 by (vm_compute; reflexivity).
  assert (add_bun_section img_overlay payload3 = Ok out) as H2
    by (vm_compute; reflexivity).
  assert (new_raw p + payload_len p < len img_overlay) as H3 by (vm_compute; reflexivity).
  assert (len img_overlay < nfs) as H4 by (vm_compute; reflexivity).
  repeat (split; [assumption|]).
  destruct (output_length_and_padding img_overlay payload3 out H1 H2)
    as (R1 & R2 & _ & R4).
  split; [exact R1|]. split; [exact (R2 H3 H4) | exact (R4 H4)].
Defined.

(** * Further properties of the script *)

(** ** [align_up] *)

(** X1: for a power-of-two alignment, [align_up] leaves every multiple of
    the alignment where it is; in particular aligning twice is aligning
    once. *)
Theorem align_up_fixes_multiples (v a : Z) :
  power_of_two a ->
  ((a | v) -> align_up v a = v)
  /\ align_up (align_up v a) a = align_up v a.
Proof.
  intros Hp. pose proof (power_of_two_pos a Hp) as Ha.
  assert (forall w, (a | w) -> align_up w a = w) as Hfix.
  { intros w Hw. eapply rounds_up_unique; [exact Ha | now apply align_up_rounds_up |].
    split; [exact Hw | lia]. }
  split; [apply Hfix|].
  apply Hfix. now apply align_up_rounds_up.
Qed.

Lemma align_up_fixes_multiples_witness :
  power_of_two 512
  /\ ((512 | 1000) -> align_up 1000 512 = 1000)
  /\ align_up (align_up 1000 512) 512 = align_up 1000 512.
Proof.
  assert (power_of_two 512) as H by (apply is_pow2_spec; vm_compute; reflexivity).
  split; [assumption|].
  exact (align_up_fixes_multiples 1000 512 H).
Defined.

(** X2: for a power-of-two alignment, [align_up] is monotone in the value. *)
Theorem align_up_monotone (v w a : Z) :
  power_of_two a -> v <= w -> align_up v a <= align_up w a.
Proof.
  intros (k & Hk & ->) Hvw. rewrite !align_up_pow2 by exact Hk.
  assert (0 < 2 ^ k) as Hp by now apply Z.pow_pos_nonneg.
  apply Z.mul_le_mono_nonneg_r; [lia|].
  apply Z.div_le_mono; lia.
Qed.

Lemma align_up_monotone_witness :
  power_of_two 4096 /\ 11 <= 4097 /\ align_up 11 4096 <= align_up 4097 4096.
Proof.
  assert (power_of_two 4096) as H by (apply is_pow2_spec; vm_compute; reflexivity).
  assert (11 <= 4097) as H' by lia.
  repeat (split; [assumption|]).
  exact (align_up_monotone 11 4097 4096 H H').
Defined.

(** ** [struct] reads and writes *)

Lemma slice_assign_self (d : bytes) (lo hi : Z) :
  0 <= lo -> lo <= hi -> hi <= len d ->
  slice_assign d lo hi (slice d lo hi) = d.
Proof. intros. nth_simp. Qed.

Lemma le_decode_app (a b : bytes) :
  le_decode (a ++ b) = le_decode a + 2 ^ (8 * len a) * le_decode b.
Proof.
  unfold len. induction a as [|x a IH]; cbn [app le_decode length].
  - change (8 * Z.of_nat 0) with 0. lia.
  - rewrite IH.
    replace (8 * Z.of_nat (S (length a))) with (8 + 8 * Z.of_nat (length a)) by lia.
    rewrite Z.pow_add_r by lia. change (2 ^ 8) with 256. lia.
Qed.

(** X3: a write that returns keeps the length of the buffer, is read back
    by the read of the same width at the same offset, and changes no byte
    outside its field. *)
Theorem write_then_read (n : nat) (data : bytes) (offset val : Z) (data' : bytes) :
  pack_into n data offset val = Ok data' ->
  unpack_from n data' offset = Ok val
  /\ len data' = len data
  /\ (forall a c, 0 <= a -> c <= offset \/ offset + Z.of_nat n <= a ->
                  slice data' a c = slice data a c).
Proof.
  intros H. split; [eapply unpack_pack_same; exact H|].
  split; [eapply pack_into_len; exact H|].
  intros a c Ha Hd. eapply pack_into_other; eauto.
Qed.

Lemma write_then_read_witness :
  let data' := slice_assign img1 208 212 (le_encode 4 0x3000) in
  write_u32 img1 208 0x3000 = Ok data'
  /\ read_u32 data' 208 = Ok 0x3000
  /\ len data' = len img1
  /\ (forall a c, 0 <= a -> c <= 208 \/ 208 + Z.of_nat 4 <= a ->
                  slice data' a c = slice img1 a c).
Proof.
  intros data'.
  assert (write_u32 img1 208 0x3000 = Ok data') as H by (vm_compute; reflexivity).
  split; [assumption|].
  exact (write_then_read 4 img1 208 0x3000 data' H).
Defined.

(** X4: writing back the value just read leaves the buffer as it is. *)
Theorem read_then_write_back (n : nat) (data : bytes) (offset val : Z) :
  unpack_from n data offset = Ok val ->
  pack_into n data offset val = Ok data.
Proof.
  intros H. pose proof (unpack_from_range _ _ _ _ H) as Hr.
  apply unpack_from_inv in H as (Ho & Hl & ->).
  rewrite pack_into_ok by (try exact Hr; lia). f_equal.
  assert (length (slice data offset (offset + Z.of_nat n)) = n) as Hlen.
  { pose proof (len_slice data offset (offset + Z.of_nat n) Ho ltac:(lia) Hl) as E.
    unfold len in E. lia. }
  rewrite <- Hlen at 2. rewrite le_encode_decode.
  apply slice_assign_self; lia.
Qed.

Lemma read_then_write_back_witness :
  read_u32 img1 208 = Ok 0x2000 /\ write_u32 img1 208 0x2000 = Ok img1.
Proof.
  assert (read_u32 img1 208 = Ok 0x2000) as H by (vm_compute; reflexivity).
  split; [assumption|].
  exact (read_then_write_back 4 img1 208 0x2000 H).
Defined.

(** X5: a 32-bit read is the two 16-bit reads of its halves, low half
    first. *)
Theorem read_u32_as_halves (data : bytes) (offset val : Z) :
  read_u32 data offset = Ok val ->
  exists lo hi,
    read_u16 data offset = Ok lo
    /\ read_u16 data (offset + 2) = Ok hi
    /\ val = lo + 65536 * hi.
Proof.
  intros H. apply read_u32_inv in H as (Ho & Hl & ->).
  exists (u16_at data offset), (u16_at data (offset + 2)).
  rewrite !read_u16_ok by lia. repeat split.
  unfold u32_at, u16_at.
  rewrite (slice_split data offset (offset + 2) (offset + 4)) by lia.
  rewrite le_decode_app, len_slice by lia.
  replace (offset + 2 + 2) with (offset + 4) by lia.
  replace (8 * (offset + 2 - offset)) with 16 by lia. reflexivity.
Qed.

Lemma read_u32_as_halves_witness :
  read_u32 img1 208 = Ok 0x2000
  /\ exists lo hi,
       read_u16 img1 208 = Ok lo
       /\ read_u16 img1 (208 + 2) = Ok hi
       /\ 0x2000 = lo + 65536 * hi.
Proof.
  assert (read_u32 img1 208 = Ok 0x2000) as H by (vm_compute; reflexivity).
  split; [assumption|].
  exact (read_u32_as_halves img1 208 0x2000 H).
Defined.

(** X6: a read that returns gives a value of its width: below [2^16],
    [2^32], [2^64], and never negative. *)
Theorem read_values_in_range (data : bytes) (offset val : Z) :
  (read_u16 data offset = Ok val -> 0 <= val < 2 ^ 16)
  /\ (read_u32 data offset = Ok val -> 0 <= val < 2 ^ 32)
  /\ (read_u64 data offset = Ok val -> 0 <= val < 2 ^ 64).
Proof.
  split; [|split]; intros H; apply unpack_from_range in H; lia.
Qed.

Lemma read_values_in_range_witness :
  read_u16 img1 134 = Ok 1 /\ 0 <= 1 < 2 ^ 16.
Proof.
  assert (read_u16 img1 134 = Ok 1) as H by (vm_compute; reflexivity).
  split; [assumption|].
  exact (proj1 (read_values_in_range img1 134 1) H).
Defined.

(** ** [recompute_checksum] *)

Lemma recompute_checksum_shape (data : bytes) (o : Z) (out : bytes) :
  recompute_checksum data o = Ok out ->
  let d := slice_assign data o (o + 4) (zeros 4) in
  0 <= o /\ o + 4 <= len data
  /\ len d = len data
  /\ 0 <= checksum_of d < 2 ^ 32
  /\ out = slice_assign d o (o + 4) (le_encode 4 (checksum_of d)).
Proof.
  intros H. apply recompute_checksum_inv in H as (d & Hd & Hw).
  apply pack_into_inv in Hd as (_ & Ho & Hl & ->).
  apply pack_into_inv in Hw as (Hv & _ & _ & ->).
  rewrite le_encode_zero in *. change (Z.of_nat 4) with 4 in *.
  cbv zeta. repeat split; try lia; try reflexivity.
  apply len_slice_assign; [lia | reflexivity | lia].
Qed.

(** X7: recomputing the checksum of a buffer whose checksum was just
    recomputed changes nothing. *)
Theorem recompute_checksum_idempotent (data : bytes) (checksum_offset : Z) (out : bytes) :
  recompute_checksum data checksum_offset = Ok out ->
  recompute_checksum out checksum_offset = Ok out.
Proof.
  intros H. apply recompute_checksum_shape in H as (Ho & Hl & Ld & Hv & ->).
  cbv zeta in *.
  set (d := slice_assign data checksum_offset (checksum_offset + 4) (zeros 4)) in *.
  set (out := slice_assign d checksum_offset (checksum_offset + 4) _).
  assert (len out = len d) as Lo
    by (apply len_slice_assign; rewrite ?len_le_encode; lia).
  assert (slice_assign out checksum_offset (checksum_offset + 4) (le_encode 4 0) = d)
    as Hz.
  { unfold out. rewrite le_encode_zero. change (Z.of_nat 4) with 4.
    rewrite slice_assign_twice; rewrite ?len_le_encode; try lia; [|reflexivity].
    unfold d. apply slice_assign_twice; [lia | reflexivity | lia | reflexivity]. }
  unfold recompute_checksum. rewrite write_u32_ok by lia. cbn [bind].
  rewrite Hz. rewrite write_u32_ok by lia. reflexivity.
Qed.

Lemma recompute_checksum_idempotent_witness :
  let out := out_of (recompute_checksum img1 216) in
  recompute_checksum img1 216 = Ok out /\ recompute_checksum out 216 = Ok out.
Proof.
  intros out.
  assert (recompute_checksum img1 216 = Ok out) as H by (vm_compute; reflexivity).
  split; [assumption|].
  exact (recompute_checksum_idempotent img1 216 out H).
Defined.

(** X8: [recompute_checksum] keeps the length of the buffer and changes no
    byte outside the four bytes of the checksum field. *)
Theorem recompute_checksum_frame (data : bytes) (checksum_offset : Z) (out : bytes) :
  recompute_checksum data checksum_offset = Ok out ->
  len out = len data
  /\ (forall a c, 0 <= a -> c <= checksum_offset \/ checksum_offset + 4 <= a ->
                  slice out a c = slice data a c).
Proof.
  intros H. apply recompute_checksum_inv in H as (d & Hd & Hw).
  pose proof (pack_into_len _ _ _ _ _ Hd). pose proof (pack_into_len _ _ _ _ _ Hw).
  split; [lia|]. intros a c Ha Hc.
  rewrite (pack_into_other _ _ _ _ _ a c Hw), (pack_into_other _ _ _ _ _ a c Hd)
    by (change (Z.of_nat 4) with 4; lia).
  reflexivity.
Qed.

Lemma recompute_checksum_frame_witness :
  let out := out_of (recompute_checksum img1 216) in
  recompute_checksum img1 216 = Ok out
  /\ len out = len img1
  /\ (forall a c, 0 <= a -> c <= 216 \/ 216 + 4 <= a -> slice out a c = slice img1 a c).
Proof.
  intros out.
  assert (recompute_checksum img1 216 = Ok out) as H by (vm_compute; reflexivity).
  split; [assumption|].
  exact (recompute_checksum_frame img1 216 out H).
Defined.

(** X9: the result of [recompute_checksum] does not depend on what the
    checksum field held: overwriting the field with any four bytes first
    gives the same result. *)
Theorem recompute_checksum_ignores_old_value (data : bytes) (checksum_offset : Z)
        (v : bytes) :
  0 <= checksum_offset -> checksum_offset + 4 <= len data -> len v = 4 ->
  recompute_checksum
    (slice_assign data checksum_offset (checksum_offset + 4) v) checksum_offset
  = recompute_checksum data checksum_offset.
Proof.
  intros Ho Hl Hv.
  set (data' := slice_assign data checksum_offset (checksum_offset + 4) v).
  assert (len data' = len data) as L by (apply len_slice_assign; lia).
  unfold recompute_checksum. rewrite !write_u32_ok by lia. cbn [bind].
  unfold data'. rewrite slice_assign_twice; rewrite ?len_le_encode; try lia.
  reflexivity.
Qed.

Lemma recompute_checksum_ignores_old_value_witness :
  0 <= 216 /\ 216 + 4 <= len img1 /\ len [x01; x02; x03; x04] = 4
  /\ recompute_checksum (slice_assign img1 216 (216 + 4) [x01; x02; x03; x04]) 216
     = recompute_checksum img1 216.
Proof.
  assert (0 <= 216) as H1 by lia.
  assert (216 + 4 <= len img1) as H2 by (vm_compute; discriminate).
  assert (len [x01; x02; x03; x04] = 4) as H3 by reflexivity.
  repeat (split; [assumption|]).
  exact (recompute_checksum_ignores_old_value img1 216 [x01; x02; x03; x04] H1 H2 H3).
Defined.

(** X10: the checksum stored by [recompute_checksum] is at least the length
    of the buffer and exceeds it by at most 0xFFFF. *)
Theorem recompute_checksum_bounds (data : bytes) (checksum_offset : Z) (out : bytes) :
  recompute_checksum data checksum_offset = Ok out ->
  len data <= u32_at out checksum_offset <= len data + 0xFFFF.
Proof.
  intros H. pose proof (recompute_checksum_shape _ _ _ H) as (Ho & Hl & Ld & Hv & _).
  cbv zeta in *.
  apply recompute_checksum_inv in H as (d & Hd & Hw).
  destruct (u32_at_pack _ _ _ _ Hw) as [-> _].
  pose proof (pack_into_len _ _ _ _ _ Hd) as L.
  pose proof (checksum_of_spec d) as [_ Hb]. lia.
Qed.

Lemma recompute_checksum_bounds_witness :
  let out := out_of (recompute_checksum img1 216) in
  recompute_checksum img1 216 = Ok out
  /\ len img1 <= u32_at out 216 <= len img1 + 0xFFFF.
Proof.
  intros out.
  assert (recompute_checksum img1 216 = Ok out) as H by (vm_compute; reflexivity).
  split; [assumption|].
  exact (recompute_checksum_bounds img1 216 out H).
Defined.

Lemma carry_fold_mod (c : Z) :
  (c mod 4294967296 + c / 4294967296) mod 65535 = c mod 65535.
Proof. Z.div_mod_to_equations. lia. Qed.

Lemma fold16_mod (c : Z) : fold16 c mod 65535 = c mod 65535.
Proof.
  unfold fold16. rewrite land_ffff, shiftr_16. Z.div_mod_to_equations. lia.
Qed.

Lemma add_mod_65535 (a b c : Z) :
  a mod 65535 = b mod 65535 -> (a + c) mod 65535 = (b + c) mod 65535.
Proof.
  intros H. rewrite (Z.add_mod a), (Z.add_mod b), H by lia. reflexivity.
Qed.

Lemma sum_words_total (data : bytes) :
  forall n acc, (length data <= n)%nat ->
    0 <= acc <= 0xFFFFFFFF ->
    ((if len data mod 2 =? 0 then sum_words acc data
      else sum_words acc data + Z_of_byte (last data x00)) mod 65535
     = (acc + word_total data) mod 65535).
Proof.
  intros n. revert data. induction n as [|n IH]; intros data acc Hn Hacc.
  - destruct data; [|simpl in Hn; lia]. cbn. f_equal. lia.
  - destruct data as [|b0 [|b1 rest]].
    + cbn. f_equal. lia.
    + cbn. reflexivity.
    + assert (len (b0 :: b1 :: rest) mod 2 = len rest mod 2) as Hpar.
      { unfold len. cbn [length].
        replace (Z.of_nat (S (S (length rest)))) with (Z.of_nat (length rest) + 1 * 2)
          by lia.
        now rewrite Z.mod_add by lia. }
      rewrite Hpar.
      assert (rest <> [] -> last (b0 :: b1 :: rest) x00 = last rest x00) as Hlast
        by (intros Hne; destruct rest; [contradiction | reflexivity]).
      cbn [sum_words word_total le_decode].
      pose proof (Z_of_byte_range b0) as H0. pose proof (Z_of_byte_range b1) as H1.
      set (c := acc + (Z_of_byte b0 + 256 * Z_of_byte b1)).
      replace (acc + (Z_of_byte b0 + 256 * (Z_of_byte b1 + 256 * 0))) with c
        by (unfold c; lia).
      replace (acc + (Z_of_byte b0 + 256 * Z_of_byte b1 + word_total rest))
        with (c + word_total rest) by (unfold c; lia).
      assert (0 <= c <= 0xFFFFFFFF + 0xFFFF) as Hc by (unfold c; lia).
      rewrite carry_fold_eq.
      set (c' := if c >? 4294967295 then c mod 4294967296 + c / 4294967296 else c).
      assert (0 <= c' <= 0xFFFFFFFF /\ c' mod 65535 = c mod 65535) as [Hr Hm].
      { unfold c'. destruct (c >? 4294967295) eqn:E.
        - split; [Z.div_mod_to_equations; lia | apply carry_fold_mod].
        - rewrite Z.gtb_ltb in E. apply Z.ltb_ge in E. split; [lia | reflexivity]. }
      specialize (IH rest c' ltac:(simpl in Hn; lia) Hr).
      rewrite (add_mod_65535 _ _ (word_total rest) (eq_sym Hm)).
      rewrite <- IH.
      destruct (len rest mod 2 =? 0) eqn:Ep; [reflexivity|].
      rewrite Hlast; [reflexivity|].
      intros ->. cbn in Ep. discriminate.
Qed.

(** X11: the checksum is a ones'-complement sum: the value stored by
    [recompute_checksum], less the length of the buffer, is congruent modulo
    0xFFFF to the plain sum of the 16-bit words of the buffer with its
    checksum field zeroed. *)
Theorem recompute_checksum_ones_complement (data : bytes) (checksum_offset : Z)
        (out : bytes) :
  recompute_checksum data checksum_offset = Ok out ->
  (u32_at out checksum_offset - len data) mod 65535
  = word_total (zero_checksum_field data checksum_offset) mod 65535.
Proof.
  intros H. pose proof (recompute_checksum_shape _ _ _ H) as (Ho & Hl & Ld & Hv & _).
  cbv zeta in *.
  apply recompute_checksum_inv in H as (d & Hd & Hw).
  destruct (u32_at_pack _ _ _ _ Hw) as [-> _].
  assert (d = zero_checksum_field data checksum_offset) as <-.
  { apply pack_into_inv in Hd as (_ & _ & _ & ->).
    unfold zero_checksum_field. now rewrite le_encode_zero. }
  pose proof (pack_into_len _ _ _ _ _ Hd) as L. rewrite <- L.
  pose proof (sum_words_total d (length d) 0 (le_n _) ltac:(lia)) as Ht.
  pose proof (sum_words_spec d (length d) 0 (le_n _) ltac:(lia)) as [_ Hr].
  unfold checksum_of.
  set (c := if len d mod 2 =? 0 then sum_words 0 d
            else sum_words 0 d + Z_of_byte (last d x00)) in *.
  assert (0 <= c <= 0xFFFFFFFF + 255) as Hc.
  { unfold c. pose proof (Z_of_byte_range (last d x00)).
    destruct (len d mod 2 =? 0); lia. }
  destruct (fold_twice c Hc) as [E _]. cbv zeta in E. rewrite E.
  replace (fold16 (fold16 c) + len d - len d) with (fold16 (fold16 c)) by lia.
  rewrite !fold16_mod. exact Ht.
Qed.

Lemma recompute_checksum_ones_complement_witness :
  let out := out_of (recompute_checksum img1 216) in
  recompute_checksum img1 216 = Ok out
  /\ (u32_at out 216 - len img1) mod 65535
     = word_total (zero_checksum_field img1 216) mod 65535.
Proof.
  intros out.
  assert (recompute_checksum img1 216 = Ok out) as H by (vm_compute; reflexivity).
  split; [assumption|].
  exact (recompute_checksum_ones_complement img1 216 out H).
Defined.

(** ** Validation in [add_bun_section] *)

(** X12: an input shorter than 64 bytes, the empty input included, has no
    [e_lfanew] field: the run raises [struct.error] before any check. *)
Theorem short_input_struct_error (pe bundle : bytes) :
  len pe < 0x40 -> add_bun_section pe bundle = Err StructError.
Proof.
  intros H. unfold add_bun_section, read_headers, read_u32, unpack_from.
  assert ((0x3C + Z.of_nat 4 <=? len pe) = false) as -> by (apply Z.leb_gt; lia).
  reflexivity.
Qed.

Lemma short_input_struct_error_witness :
  len (@nil byte) < 0x40 /\ add_bun_section [] payload3 = Err StructError.
Proof.
  assert (len (@nil byte) < 0x40) as H by reflexivity.
  split; [assumption|].
  exact (short_input_struct_error [] payload3 H).
Defined.

(** X13: an input that holds [e_lfanew] but not the four bytes [PE\0\0] at
    that offset (a wrong signature, or a file that ends before it) is
    rejected with [FormatError], whatever follows. *)
Theorem bad_signature_format_error (pe bundle : bytes) :
  0x40 <= len pe -> pe_sig_of pe <> PE_SIG ->
  add_bun_section pe bundle = Err FormatError.
Proof.
  intros Hl Hs. unfold add_bun_section, read_headers.
  rewrite read_u32_ok by lia. cbn [bind].
  destruct (bytes_eqb (slice pe (u32_at pe 60) (u32_at pe 60 + 4)) PE_SIG) eqn:E.
  - apply bytes_eqb_true in E. contradiction.
  - reflexivity.
Qed.

Lemma bad_signature_format_error_witness :
  0x40 <= len img_bad_sig /\ pe_sig_of img_bad_sig <> PE_SIG
  /\ add_bun_section img_bad_sig payload3 = Err FormatError.
Proof.
  assert (0x40 <= len img_bad_sig) as H1 by (vm_compute; discriminate).
  assert (pe_sig_of img_bad_sig <> PE_SIG) as H2 by (vm_compute; discriminate).
  repeat (split; [assumption|]).
  exact (bad_signature_format_error img_bad_sig payload3 H1 H2).
Defined.

(** X14: an input with the signature in place and a readable COFF header
    whose optional-header magic is not 0x20B (the 32-bit 0x10B included) is
    rejected with [UnsupportedFormat]; neither the section table nor the
    payload is looked at. *)
Theorem wrong_magic_unsupported (pe bundle : bytes) :
  0x40 <= len pe -> pe_sig_of pe = PE_SIG ->
  opt_offset (headers_of pe) + 2 <= len pe ->
  magic_of pe <> 0x20B ->
  add_bun_section pe bundle = Err UnsupportedFormat.
Proof.
  intros Hl Hs Ho Hm.
  pose proof (u32_at_range pe 0x3C) as He.
  unfold pe_sig_of, magic_of, headers_of in *. hproj.
  unfold add_bun_section, read_headers.
  rewrite read_u32_ok by lia. cbn [bind].
  rewrite Hs, bytes_eqb_refl. cbn [assert_ bind].
  rewrite !read_u16_ok by lia. cbn [bind].
  destruct (u16_at pe (u32_at pe 60 + 4 + 20) =? 523) eqn:E.
  - apply Z.eqb_eq in E. contradiction.
  - reflexivity.
Qed.

Lemma wrong_magic_unsupported_witness :
  0x40 <= len img_pe32 /\ pe_sig_of img_pe32 = PE_SIG
  /\ opt_offset (headers_of img_pe32) + 2 <= len img_pe32
  /\ magic_of img_pe32 <> 0x20B
  /\ add_bun_section img_pe32 payload3 = Err UnsupportedFormat.
Proof.
  assert (0x40 <= len img_pe32) as H1 by (vm_compute; discriminate).
  assert (pe_sig_of img_pe32 = PE_SIG) as H2 by (vm_compute; reflexivity).
  assert (opt_offset (headers_of img_pe32) + 2 <= len img_pe32) as H3
    by (vm_compute; discriminate).
  assert (magic_of img_pe32 <> 0x20B) as H4 by (vm_compute; discriminate).
  repeat (split; [assumption|]).
  exact (wrong_magic_unsupported img_pe32 payload3 H1 H2 H3 H4).
Defined.

(** X15: the duplicate-name check comes first: an image with a readable
    header chain and section table, one of whose sections is named [.bun],
    is rejected with [DuplicateSection] whatever its section count (96 or
    more included) and whatever room its headers have. *)
Theorem duplicate_before_other_checks (pe bundle : bytes) :
  let h := headers_of pe in
  chain_ok pe ->
  section_headers_offset h + 40 * num_sections h <= len pe ->
  Exists (fun s => name s = BUN_NAME) (sections h) ->
  add_bun_section pe bundle = Err DuplicateSection.
Proof.
  intros h Hc Ht Hn. unfold add_bun_section.
  now rewrite (read_headers_dup pe Hc Ht Hn).
Qed.

Lemma duplicate_before_other_checks_witness :
  let h := headers_of img96_bun in
  chain_ok img96_bun
  /\ section_headers_offset h + 40 * num_sections h <= len img96_bun
  /\ Exists (fun s => name s = BUN_NAME) (sections h)
  /\ num_sections h = 96
  /\ add_bun_section img96_bun payload3 = Err DuplicateSection.
Proof.
  intros h.
  assert (chain_ok img96_bun) as H1.
  { repeat split; vm_compute; try reflexivity; discriminate. }
  assert (section_headers_offset h + 40 * num_sections h <= len img96_bun) as H2
    by (vm_compute; discriminate).
  assert (Exists (fun s => name s = BUN_NAME) (sections h)) as H3.
  { apply Exists_exists. exists (section_at img96_bun (section_headers_offset h) 0).
    split; [vm_compute; left; reflexivity | vm_compute; reflexivity]. }
  repeat (split; [assumption|]).
  split; [vm_compute; reflexivity|].
  exact (duplicate_before_other_checks img96_bun payload3 H1 H2 H3).
Defined.

(** X16: the outcome of validation does not depend on the payload: when a
    run fails with anything but [struct.error], the run on the same image
    with any other payload fails in the same way. *)
Theorem validation_ignores_payload (pe bundle bundle' : bytes) (e : error) :
  add_bun_section pe bundle = Err e -> e <> StructError ->
  add_bun_section pe bundle' = Err e.
Proof.
  unfold add_bun_section. intros H Hne.
  destruct (read_headers pe) as [h|e'] eqn:Hread; cbn [bind] in *; [|exact H].
  pose proof (read_headers_inv _ _ Hread) as (-> & _).
  pose proof (header_room_layout pe bundle) as R. cbv zeta in R.
  pose proof (header_room_layout pe bundle') as R'. cbv zeta in R'.
  destruct (plan_layout_cases pe (headers_of pe) bundle) as [[Hok E] | [Hbad E]];
    rewrite E in H; cbn [bind] in H.
  - exfalso. apply Hne.
    destruct (mutate pe (headers_of pe) (layout_of pe (headers_of pe) bundle) bundle)
      as [d|e''] eqn:Em; cbn [bind] in H.
    + now apply recompute_checksum_err in H.
    + apply mutate_err in Em. congruence.
  - injection H as <-.
    destruct (plan_layout_cases pe (headers_of pe) bundle') as [[Hok' _] | [_ ->]];
      [|reflexivity].
    apply R' in Hok'. apply R in Hok'. lia.
Qed.

Lemma validation_ignores_payload_witness :
  add_bun_section img_full_table payload3 = Err InsufficientHeaderSpace
  /\ InsufficientHeaderSpace <> StructError
  /\ add_bun_section img_full_table [] = Err InsufficientHeaderSpace.
Proof.
  assert (add_bun_section img_full_table payload3 = Err InsufficientHeaderSpace) as H1
    by (vm_compute; reflexivity).
  assert (InsufficientHeaderSpace <> StructError) as H2 by discriminate.
  repeat (split; [assumption|]).
  exact (validation_ignores_payload img_full_table payload3 [] _ H1 H2).
Defined.

(** ** What a run returns *)

(** X17: every buffer returned by [add_bun_section] carries a valid
    checksum: the field holds the checksum computed over the buffer with the
    field zeroed, and recomputing it changes nothing. *)
Theorem output_checksum_valid (pe bundle out : bytes) :
  add_bun_section pe bundle = Ok out ->
  let o := checksum_offset (headers_of pe) in
  u32_at out o = checksum_of (zero_checksum_field out o)
  /\ recompute_checksum out o = Ok out.
Proof.
  intros Hrun o.
  pose proof (add_bun_section_inv _ _ _ Hrun) as (_ & _ & d & _ & Hck).
  cbv zeta in Hck. fold o in Hck.
  pose proof (recompute_checksum_shape _ _ _ Hck) as (Ho & Hl & Ld & Hv & Hout).
  cbv zeta in *.
  set (dz := slice_assign d o (o + 4) (zeros 4)) in *.
  assert (pack_into 4 dz o (checksum_of dz) = Ok out) as Hw.
  { rewrite pack_into_ok; [now rewrite Hout | exact Hv | lia |].
    change (Z.of_nat 4) with 4. lia. }
  pose proof (pack_into_len _ _ _ _ _ Hw) as Lo.
  assert (zero_checksum_field out o = dz) as Hz.
  { unfold zero_checksum_field. rewrite Hout.
    rewrite slice_assign_twice; rewrite ?len_le_encode; try lia; [|reflexivity].
    unfold dz. apply slice_assign_twice; [lia | reflexivity | lia | reflexivity]. }
  split.
  - rewrite Hz. exact (proj1 (u32_at_pack _ _ _ _ Hw)).
  - unfold recompute_checksum. rewrite write_u32_ok by lia. cbn [bind].
    rewrite le_encode_zero. change (Z.of_nat 4) with 4.
    fold (zero_checksum_field out o). rewrite Hz. exact Hw.
Qed.

Lemma output_checksum_valid_witness :
  let out := out_of (add_bun_section img1 payload3) in
  let o := checksum_offset (headers_of img1) in
  add_bun_section img1 payload3 = Ok out
  /\ u32_at out o = checksum_of (zero_checksum_field out o)
  /\ recompute_checksum out o = Ok out.
Proof.
  intros out o.
  assert (add_bun_section img1 payload3 = Ok out) as H by (vm_compute; reflexivity).
  split; [assumption|].
  exact (output_checksum_valid img1 payload3 out H).
Defined.

(** X18: [add_bun_section] never returns a buffer shorter than its input,
    well-formed or not. *)
Theorem output_never_shorter (pe bundle out : bytes) :
  add_bun_section pe bundle = Ok out -> len pe <= len out.
Proof.
  intros Hrun.
  pose proof (add_bun_section_inv _ _ _ Hrun) as (_ & _ & d & Hm & Hck).
  pose proof (run_frame pe bundle d out Hm Hck) as (d2 & L1 & L2 & _). lia.
Qed.

Lemma output_never_shorter_witness :
  let out := out_of (add_bun_section img_overlay payload3) in
  add_bun_section img_overlay payload3 = Ok out /\ len img_overlay <= len out.
Proof.
  intros out.
  assert (add_bun_section img_overlay payload3 = Ok out) as H
    by (vm_compute; reflexivity).
  split; [assumption|].
  exact (output_never_shorter img_overlay payload3 out H).
Defined.




Lemma new_section_header_tail (p : layout) (sh : bytes) :
  new_section_header p = Ok sh ->
  u32_at sh 36 = Z.lor IMAGE_SCN_CNT_INITIALIZED_DATA IMAGE_SCN_MEM_READ
  /\ slice sh 24 36 = zeros 12.
Proof.
  unfold new_section_header. intros H.
  set (s0 := slice_assign (zeros SECTION_HEADER_SIZE) 0 8 BUN_NAME) in H.
  assert (slice s0 24 36 = zeros 12) as N0 by reflexivity.
  inv_bind_as H s1 H1. inv_bind_as H s2 H2.
  inv_bind_as H s3 H3. inv_bind_as H s4 H4.
  split; [exact (proj1 (u32_at_pack _ _ _ _ H))|].
  rewrite (pack_into_other _ _ _ _ _ 24 36 H), (pack_into_other _ _ _ _ _ 24 36 H4),
    (pack_into_other _ _ _ _ _ 24 36 H3), (pack_into_other _ _ _ _ _ 24 36 H2),
    (pack_into_other _ _ _ _ _ 24 36 H1) by lia.
  exact N0.
Qed.

(** X20: after a successful run on a 64-bit image with well-formed headers
    and at least one section that has raw data, the record added to the
    section table holds the name [.bun], the exact prefixed payload length as
    virtual size, the planned virtual address, raw size and raw pointer, the
    characteristics "initialized data, readable" (0x40000040), and zeros in
    its relocation and line-number fields. *)
Theorem new_section_record (pe bundle out : bytes) :
  well_formed_headers pe ->
  has_raw_data pe ->
  add_bun_section pe bundle = Ok out ->
  let h := headers_of pe in
  let p := layout_of pe h bundle in
  exists s,
    sections (headers_of out) = sections h ++ [s]
    /\ name s = BUN_NAME
    /\ virtual_size s = len bundle + 8
    /\ virtual_addr s = new_va p
    /\ raw_size s = raw_size_new p
    /\ raw_ptr s = new_raw p
    /\ chars s = 0x40000040
    /\ slice out (off s + 24) (off s + 36) = zeros 12.
Proof.
  intros Hwh Hraw Hrun h p.
  pose proof (well_formed_split pe Hwh Hraw) as Hwf.
  pose proof (wf_output_view pe bundle out Hwf Hrun)
    as (_ & _ & _ & _ & _ & _ & _ & _ & _ & Ksec & Kname & Kvs & Kva & Krs & Krp).
  pose proof (wf_run pe bundle out Hwf Hrun) as (sh & Hsh' & _ & _ & Rsh & _).
  pose proof (new_section_header_tail _ _ Hsh') as (Tch & Tz).
  pose proof (layout_nonneg pe bundle) as (Lsh & _).
  cbv zeta in *. fold h p in Ksec, Kname, Kvs, Kva, Krs, Krp, Hsh', Rsh, Lsh.
  assert (section_headers_offset h + num_sections h * SECTION_HEADER_SIZE
          = new_sh_off p) as Eoff by reflexivity.
  assert (forall x y, 0 <= x -> x <= y -> y <= 40 ->
            slice out (new_sh_off p + x) (new_sh_off p + y) = slice sh x y) as Knew.
  { intros x y Hx Hxy Hy. rewrite <- Rsh. rewrite slice_slice by lia. reflexivity. }
  eexists. split; [exact Ksec|]. split; [exact Kname|]. split; [exact Kvs|].
  split; [exact Kva|]. split; [exact Krs|]. split; [exact Krp|]. split.
  - cbn [section_at chars]. rewrite Eoff. unfold u32_at.
    replace (new_sh_off p + 36 + 4) with (new_sh_off p + 40) by lia.
    rewrite Knew by lia. exact Tch.
  - cbn [section_at off]. rewrite Eoff. rewrite Knew by lia. exact Tz.
Qed.

Lemma new_section_record_witness :
  let out := out_of (add_bun_section img1 payload3) in
  let h := headers_of img1 in
  let p := layout_of img1 h payload3 in
  well_formed_headers img1
  /\ has_raw_data img1
  /\ add_bun_section img1 payload3 = Ok out
  /\ exists s,
       sections (headers_of out) = sections h ++ [s]
       /\ name s = BUN_NAME
       /\ virtual_size s = len payload3 + 8
       /\ virtual_addr s = new_va p
       /\ raw_size s = raw_size_new p
       /\ raw_ptr s = new_raw p
       /\ chars s = 0x40000040
       /\ slice out (off s + 24) (off s + 36) = zeros 12.
Proof.
  intros out h p.
  assert (well_formed_headers img1) as H1 by (vm_compute; reflexivity).
  assert (has_raw_data img1) as H1' by (vm_compute; reflexivity).
  assert (add_bun_section img1 payload3 = Ok out) as H2 by (vm_compute; reflexivity).
  split; [exact H1|]. split; [exact H1'|]. split; [exact H2|].
  exact (new_section_record img1 payload3 out H1 H1' H2).
Defined.

(** X22: whenever the planner returns, with power-of-two alignments, the new
    section is aligned and lies after every existing section: its raw
    pointer and raw size are multiples of the file alignment, its virtual
    address a multiple of the section alignment; no existing section's raw
    data or virtual extent reaches beyond the new raw pointer or virtual
    address; and the raw size holds the prefixed payload with less than one
    file alignment to spare. *)
Theorem new_section_placement (pe bundle : bytes) (h : headers) (p : layout) :
  plan_layout pe h bundle = Ok p ->
  power_of_two (file_alignment h) ->
  power_of_two (section_alignment h) ->
  new_raw p mod file_alignment h = 0
  /\ raw_size_new p mod file_alignment h = 0
  /\ new_va p mod section_alignment h = 0
  /\ len bundle + 8 <= raw_size_new p < len bundle + 8 + file_alignment h
  /\ (forall s, In s (sections h) ->
        raw_ptr s + raw_size s <= new_raw p
        /\ virtual_addr s + Z.max (virtual_size s) (raw_size s) <= new_va p).
Proof.
  intros Hp Hfa Hsa. apply plan_layout_inv in Hp as [-> _].
  unfold layout_of. lproj.
  split; [now apply align_up_multiple|]. split; [now apply align_up_multiple|].
  split; [now apply align_up_multiple|]. split.
  - destruct (align_up_rounds_up (len bundle + 8) _ Hfa) as [_ H]. exact H.
  - intros s Hs.
    pose proof (last_file_end_ge _ s Hs).
    pose proof (last_va_end_ge (section_alignment h) _ s Hs).
    pose proof (align_up_ge (last_file_end_of (sections h)) _ Hfa).
    pose proof (align_up_ge (last_va_end_of (section_alignment h) (sections h)) _ Hsa).
    pose proof (align_up_ge (Z.max (virtual_size s) (raw_size s)) _ Hsa).
    lia.
Qed.

Lemma new_section_placement_witness :
  let p := layout_of img1 (headers_of img1) payload3 in
  plan_layout img1 (headers_of img1) payload3 = Ok p
  /\ power_of_two (file_alignment (headers_of img1))
  /\ power_of_two (section_alignment (headers_of img1))
  /\ new_raw p mod file_alignment (headers_of img1) = 0
  /\ raw_size_new p mod file_alignment (headers_of img1) = 0
  /\ new_va p mod section_alignment (headers_of img1) = 0
  /\ len payload3 + 8 <= raw_size_new p
                      < len payload3 + 8 + file_alignment (headers_of img1)
  /\ (forall s, In s (sections (headers_of img1)) ->
        raw_ptr s + raw_size s <= new_raw p
        /\ virtual_addr s + Z.max (virtual_size s) (raw_size s) <= new_va p).
Proof.
  intros p.
  assert (plan_layout img1 (headers_of img1) payload3 = Ok p) as H1
    by (vm_compute; reflexivity).
  assert (power_of_two (file_alignment (headers_of img1))) as H2
    by (apply is_pow2_spec; vm_compute; reflexivity).
  assert (power_of_two (section_alignment (headers_of img1))) as H3
    by (apply is_pow2_spec; vm_compute; reflexivity).
  repeat (split; [assumption|]).
  exact (new_section_placement img1 payload3 (headers_of img1) p H1 H2 H3).
Defined.

(** X24: what [read_headers] guarantees when it returns: fewer than 96
    sections, one record per counted section, every record inside the
    buffer and not named [.bun], and every numeric field of a record below
    [2^32]. *)
Theorem read_headers_guarantees (pe : bytes) (h : headers) :
  read_headers pe = Ok h ->
  num_sections h < 96
  /\ Z.of_nat (length (sections h)) = num_sections h
  /\ (forall s, In s (sections h) ->
        name s <> BUN_NAME
        /\ 0 <= off s /\ off s + 40 <= len pe
        /\ 0 <= virtual_size s < 2 ^ 32 /\ 0 <= virtual_addr s < 2 ^ 32
        /\ 0 <= raw_size s < 2 ^ 32 /\ 0 <= raw_ptr s < 2 ^ 32).
Proof.
  intros H. pose proof (read_headers_inv _ _ H) as (-> & _ & H96 & Hall).
  pose proof (headers_of_offsets pe) as (_ & _ & _ & _ & _ & _ & _ & Hns).
  cbv zeta in Hns. split; [exact H96|]. split.
  - unfold headers_of at 1. hproj. rewrite length_section_table.
    change (u16_at pe (u32_at pe 60 + 4 + 2)) with (num_sections (headers_of pe)).
    lia.
  - intros s Hs. rewrite Forall_forall in Hall.
    destruct (Hall s Hs) as (Ho & Hb & Hn).
    pose proof (sections_fields pe s Hs). tauto.
Qed.

Lemma read_headers_guarantees_witness :
  let h := headers_of img95 in
  read_headers img95 = Ok h
  /\ num_sections h < 96
  /\ Z.of_nat (length (sections h)) = num_sections h
  /\ (forall s, In s (sections h) ->
        name s <> BUN_NAME
        /\ 0 <= off s /\ off s + 40 <= len img95
        /\ 0 <= virtual_size s < 2 ^ 32 /\ 0 <= virtual_addr s < 2 ^ 32
        /\ 0 <= raw_size s < 2 ^ 32 /\ 0 <= raw_ptr s < 2 ^ 32).
Proof.
  intros h.
  assert (read_headers img95 = Ok h) as H by (vm_compute; reflexivity).
  split; [assumption|].
  exact (read_headers_guarantees img95 h H).
Defined.

(** The [size_of_headers] field after a successful run on a well-formed
    image. *)
Lemma wf_size_of_headers (pe b out : bytes) :
  well_formed pe ->
  add_bun_section pe b = Ok out ->
  let h := headers_of pe in
  let p := layout_of pe h b in
  u32_at out (opt_offset h + 60) = Z.max (size_of_headers h) (new_size_of_headers p).
Proof.
  intros Hwf Hrun.
  pose proof (add_bun_section_inv _ _ _ Hrun) as (Hread & Hroom & d & Hm & Hck).
  apply header_room_layout in Hroom.
  pose proof (wf_layout pe b Hwf Hroom)
    as (Wsh & Wend & Wnh & Wfr & Wraw & Wh32 & Wpl & Wrs & Wimg & Wn & Wva).
  pose proof (well_formed_facts pe Hwf)
    as (Fl & Fe & Fc & Fso & Ft & Ffa & Fsa & Fnb & _).
  pose proof (headers_of_offsets pe) as (He & Hco & Hop & Hcs & Hsd & Hsh & Hso & Hns).
  pose proof (layout_nonneg pe b) as (Lsh & Lraw & Lrs & Lva & Lpl & _).
  cbv zeta in *.
  set (h := headers_of pe) in *. set (p := layout_of pe h b) in *.
  destruct Hm as [sh d1 d2 d3 d4 Hsh' H1 H2 H3 H4 Hd].
  apply recompute_checksum_inv in Hck as (d' & Hc1 & Hc2).
  unfold write_u64, write_u16, write_u32, SECTION_HEADER_SIZE in *.
  pose proof (new_section_header_inv _ _ Hsh') as (Lsh' & _).
  pose proof (len_extend_buffer pe _ _ Lraw Lrs) as L0.
  set (d0 := extend_buffer pe (new_raw p) (raw_size_new p)) in *.
  pose proof (len_nonneg b) as Lb.
  assert (len (zeros 8) = 8) as Lz by reflexivity.
  set (d0' := slice_assign d0 (new_sh_off p) (new_sh_off p + 40) sh) in *.
  assert (len d0' = len d0) as L0'
    by (unfold d0'; apply len_slice_assign; lia).
  pose proof (pack_into_len _ _ _ _ _ H1) as L1.
  set (d1' := slice_assign d1 (new_raw p + 8) (new_raw p + 8 + len b) b) in *.
  assert (len d1' = len d1) as L1'
    by (unfold d1'; apply len_slice_assign; lia).
  pose proof (pack_into_len _ _ _ _ _ H2) as L2.
  destruct (headers_step _ _ _ _ _ H3) as [L3 F3].
  pose proof (pack_into_len _ _ _ _ _ H4) as L4.
  (* the field is left alone after the conditional write *)
  assert (slice out (opt_offset h + 60) (opt_offset h + 60 + 4)
          = slice d3 (opt_offset h + 60) (opt_offset h + 60 + 4)) as Eout.
  { rewrite (pack_into_other _ _ _ _ _ _ _ Hc2), (pack_into_other _ _ _ _ _ _ _ Hc1)
      by lia.
    rewrite Hd, slice_assign_disjoint by lia.
    apply (pack_into_other _ _ _ _ _ _ _ H4); lia. }
  (* and holds the input's value before it *)
  assert (slice d2 (opt_offset h + 60) (opt_offset h + 60 + 4)
          = slice pe (opt_offset h + 60) (opt_offset h + 60 + 4)) as Ein.
  { rewrite (pack_into_other _ _ _ _ _ _ _ H2) by lia.
    unfold d1'. rewrite slice_assign_disjoint by lia.
    rewrite (pack_into_other _ _ _ _ _ _ _ H1) by lia.
    unfold d0'. rewrite slice_assign_disjoint by lia.
    apply extend_buffer_prefix; lia. }
  unfold u32_at. rewrite Eout.
  destruct (size_of_headers h <? new_size_of_headers p) eqn:E.
  - apply Z.ltb_lt in E.
    pose proof (pack_into_same _ _ _ _ _ H3) as X.
    change (Z.of_nat 4) with 4 in X. rewrite X.
    rewrite le_decode_encode_small; [lia|].
    apply pack_into_inv in H3 as (V & _). exact V.
  - apply Z.ltb_ge in E. injection H3 as <-. rewrite Ein.
    change (le_decode (slice pe (opt_offset h + 60) (opt_offset h + 60 + 4)))
      with (size_of_headers h).
    lia.
Qed.

(** X21: a successful run on a 64-bit image with well-formed headers and at
    least one section that has raw data raises [size_of_headers] to the
    aligned end of the grown section table when the stored value is smaller,
    and leaves it alone otherwise: the output holds the greater of the
    two. *)
Theorem size_of_headers_raised (pe bundle out : bytes) :
  well_formed_headers pe ->
  has_raw_data pe ->
  add_bun_section pe bundle = Ok out ->
  let h := headers_of pe in
  size_of_headers (headers_of out)
  = Z.max (size_of_headers h)
      (align_up (section_headers_offset h + (num_sections h + 1) * 40)
         (file_alignment h)).
Proof.
  intros Hwh Hraw Hrun h.
  pose proof (well_formed_split pe Hwh Hraw) as Hwf.
  pose proof (wf_size_of_headers pe bundle out Hwf Hrun) as Hs.
  pose proof (wf_output_view pe bundle out Hwf Hrun) as (_ & Ke & _).
  pose proof (headers_of_offsets pe) as (_ & _ & Hop & _).
  pose proof (headers_of_offsets out) as (_ & _ & Hop' & _).
  cbv zeta in *. fold h in Hs, Ke, Hop.
  change (size_of_headers (headers_of out))
    with (u32_at out (opt_offset (headers_of out) + 60)).
  replace (opt_offset (headers_of out)) with (opt_offset h) by lia.
  rewrite Hs. f_equal. unfold layout_of. lproj. unfold SECTION_HEADER_SIZE.
  f_equal. lia.
Qed.

Lemma size_of_headers_raised_witness :
  let out := out_of (add_bun_section img_small_headers payload3) in
  let h := headers_of img_small_headers in
  well_formed_headers img_small_headers
  /\ has_raw_data img_small_headers
  /\ add_bun_section img_small_headers payload3 = Ok out
  /\ size_of_headers h = 448
  /\ align_up (section_headers_offset h + (num_sections h + 1) * 40)
       (file_alignment h) = 512
  /\ size_of_headers (headers_of out)
     = Z.max (size_of_headers h)
         (align_up (section_headers_offset h + (num_sections h + 1) * 40)
            (file_alignment h)).
Proof.
  intros out h.
  assert (well_formed_headers img_small_headers) as H1 by (vm_compute; reflexivity).
  assert (has_raw_data img_small_headers) as H1' by (vm_compute; reflexivity).
  assert (add_bun_section img_small_headers payload3 = Ok out) as H2
    by (vm_compute; reflexivity).
  split; [exact H1|]. split; [exact H1'|]. split; [exact H2|].
  split; [vm_compute; reflexivity|]. split; [vm_compute; reflexivity|].
  exact (size_of_headers_raised img_small_headers payload3 out H1 H1' H2).
Defined.

(** X23: a successful run on a 64-bit image with well-formed headers and at
    least one section that has raw data re-establishes the size invariants
    of the data model: in the output, [size_of_headers] covers the whole
    section table, the new record included, and [size_of_image] covers the
    virtual extent of every section, the new one included. *)
Theorem output_sizes_cover (pe bundle out : bytes) :
  well_formed_headers pe ->
  has_raw_data pe ->
  add_bun_section pe bundle = Ok out ->
  let h' := headers_of out in
  section_headers_offset h' + 40 * num_sections h' <= size_of_headers h'
  /\ (forall s, In s (sections h') ->
        virtual_addr s + virtual_size s <= size_of_image h').
Proof.
  intros Hwh Hraw Hrun.
  pose proof (well_formed_split pe Hwh Hraw) as Hwf.
  pose proof (wf_size_of_headers pe bundle out Hwf Hrun) as Hs.
  pose proof (wf_output_view pe bundle out Hwf Hrun)
    as (_ & Ke & Kso & Kn & _ & _ & Kimg & _ & _ & Ksec & _ & Kvs & Kva & _).
  pose proof (add_bun_section_inv _ _ _ Hrun) as (_ & Hroom & _).
  apply header_room_layout in Hroom.
  pose proof (wf_layout pe bundle Hwf Hroom)
    as (Wsh & Wend & Wnh & _ & _ & _ & Wpl & _ & Wimg & _ & _).
  pose proof (well_formed_facts pe Hwf) as (_ & _ & _ & _ & _ & _ & Fsa & _).
  pose proof (headers_of_offsets pe) as (_ & _ & Hop & _ & _ & Hsh & _).
  pose proof (headers_of_offsets out) as (_ & _ & Hop' & _ & _ & Hsh' & _).
  cbv zeta in *.
  set (h := headers_of pe) in *. set (p := layout_of pe h bundle) in *.
  split.
  - change (size_of_headers (headers_of out))
      with (u32_at out (opt_offset (headers_of out) + 60)).
    replace (opt_offset (headers_of out)) with (opt_offset h) by lia.
    rewrite Hs. lia.
  - intros s Hs'. rewrite Kimg. rewrite Ksec in Hs'. pose proof (len_nonneg bundle).
    apply in_app_or in Hs' as [Hold | [<- | []]].
    + pose proof (last_va_end_ge (section_alignment h) _ s Hold) as Hle.
      pose proof (align_up_ge (Z.max (virtual_size s) (raw_size s)) _ Fsa).
      pose proof (align_up_ge (last_va_end_of (section_alignment h) (sections h)) _ Fsa).
      assert (new_va p = align_up (last_va_end_of (section_alignment h) (sections h))
                           (section_alignment h)) as E by reflexivity.
      lia.
    + rewrite Kvs, Kva. lia.
Qed.

Lemma output_sizes_cover_witness :
  let out := out_of (add_bun_section img_slack payload3) in
  let h' := headers_of out in
  well_formed_headers img_slack
  /\ has_raw_data img_slack
  /\ add_bun_section img_slack payload3 = Ok out
  /\ section_headers_offset h' + 40 * num_sections h' <= size_of_headers h'
  /\ (forall s, In s (sections h') ->
        virtual_addr s + virtual_size s <= size_of_image h').
Proof.
  intros out h'.
  assert (well_formed_headers img_slack) as H1 by (vm_compute; reflexivity).
  assert (has_raw_data img_slack) as H1' by (vm_compute; reflexivity).
  assert (add_bun_section img_slack payload3 = Ok out) as H2
    by (vm_compute; reflexivity).
  split; [exact H1|]. split; [exact H1'|]. split; [exact H2|].
  exact (output_sizes_cover img_slack payload3 out H1 H1' H2).
Defined.

(** X25: when the input does not reach beyond the new section's raw region
    (no trailing data), the output of a successful run on a well-formed
    image ends exactly at the end of that region, and its length is a
    multiple of the file alignment. *)
Theorem output_ends_aligned (pe bundle out : bytes) :
  well_formed pe ->
  add_bun_section pe bundle = Ok out ->
  let h := headers_of pe in
  let p := layout_of pe h bundle in
  len pe <= new_raw p + raw_size_new p ->
  len out = new_raw p + raw_size_new p
  /\ len out mod file_alignment h = 0.
Proof.
  intros Hwf Hrun h p Hl.
  pose proof (wf_run pe bundle out Hwf Hrun) as (_ & _ & Lout & _).
  pose proof (well_formed_facts pe Hwf) as (_ & _ & _ & _ & _ & Ffa & _).
  cbv zeta in *. fold h p in Lout, Ffa.
  assert (len out = new_raw p + raw_size_new p) as E by lia.
  split; [exact E|]. rewrite E.
  pose proof (power_of_two_pos _ Ffa).
  pose proof (align_up_multiple (last_file_end_of (sections h)) _ Ffa) as M1.
  pose proof (align_up_multiple (len bundle + 8) _ Ffa) as M2.
  change (align_up (last_file_end_of (sections h)) (file_alignment h))
    with (new_raw p) in M1.
  change (align_up (len bundle + 8) (file_alignment h)) with (raw_size_new p) in M2.
  rewrite Z.add_mod, M1, M2 by lia. reflexivity.
Qed.

Lemma output_ends_aligned_witness :
  let out := out_of (add_bun_section img1 payload3) in
  let h := headers_of img1 in
  let p := layout_of img1 h payload3 in
  well_formed img1
  /\ add_bun_section img1 payload3 = Ok out
  /\ len img1 <= new_raw p + raw_size_new p
  /\ len out = new_raw p + raw_size_new p
  /\ len out mod file_alignment h = 0.
Proof.
  intros out h p.
  assert (well_formed img1) as H1 by (vm_compute; reflexivity).
  assert (add_bun_section img1 payload3 = Ok out) as H2 by (vm_compute; reflexivity).
  assert (len img1 <= new_raw p + raw_size_new p) as H3 by (vm_compute; discriminate).
  repeat (split; [assumption|]).
  exact (output_ends_aligned img1 payload3 out H1 H2 H3).
Defined.

(** X26: once the headers are read and the placement is planned, the only
    way a run can still fail is [struct.error] (a value that does not fit its
    field or a write outside the buffer): no later step raises one of the
    five validation errors. *)
Theorem late_failures_are_struct_errors (pe bundle : bytes) (h : headers) (p : layout)
        (e : error) :
  read_headers pe = Ok h ->
  plan_layout pe h bundle = Ok p ->
  add_bun_section pe bundle = Err e ->
  e = StructError.
Proof.
  intros Hh Hp H. unfold add_bun_section in H. rewrite Hh in H. cbn [bind] in H.
  rewrite Hp in H. cbn [bind] in H.
  destruct (mutate pe h p bundle) as [d|e'] eqn:Em; cbn [bind] in H.
  - now apply recompute_checksum_err in H.
  - apply mutate_err in Em. congruence.
Qed.

Lemma late_failures_are_struct_errors_witness :
  let h := headers_of img_high_va in
  let p := layout_of img_high_va h payload3 in
  read_headers img_high_va = Ok h
  /\ plan_layout img_high_va h payload3 = Ok p
  /\ add_bun_section img_high_va payload3 = Err StructError
  /\ StructError = StructError.
Proof.
  intros h p.
  assert (read_headers img_high_va = Ok h) as H1 by (vm_compute; reflexivity).
  assert (plan_layout img_high_va h payload3 = Ok p) as H2 by (vm_compute; reflexivity).
  assert (add_bun_section img_high_va payload3 = Err StructError) as H3
    by (vm_compute; reflexivity).
  repeat (split; [assumption|]).
  exact (late_failures_are_struct_errors img_high_va payload3 h p StructError H1 H2 H3).
Defined.


